(** * Pagers of the Firestore v1 client

    A shallow embedding of
    [google/cloud/firestore_v1/services/firestore/pagers.py]: the two classes
    [ListDocumentsPager] and [PartitionQueryPager], their generators [pages]
    and [__iter__], attribute forwarding and [__repr__], and the properties
    the specification states about them. *)

From stdpp Require Import base strings list functions relations.
From Stdlib Require Import Lia.

(** ** What the module imports

    [pagers.py] imports its message types from [google.firestore_v1.types]
    and receives the fetch callable from its caller.  Their declarations are
    not part of the file, so they are parameters of the development. *)

Class Env := {
  (** [document.Document], the elements of [ListDocumentsResponse.documents] *)
  Document : Type;
  (** [query.Cursor], the elements of [PartitionQueryResponse.partitions] *)
  Cursor : Type;
  (** the fields of [ListDocumentsRequest] other than [page_token] *)
  ListDocumentsFields : Type;
  (** the fields of [PartitionQueryRequest] other than [page_token] *)
  PartitionQueryFields : Type;
  (** Python objects the development does not look into *)
  Object : Type;
  (** what a call can raise *)
  Exception : Type;
  (** everything the fetch callable talks to (server, network) *)
  World : Type;
  (** [isinstance(e, StopIteration)] *)
  is_StopIteration : Exception → bool;
  (** the [RuntimeError] ("generator raised StopIteration") that Python
      raises in place of a [StopIteration] [e] that would leave a generator
      body; it is not itself a [StopIteration] *)
  generator_raised : Exception → Exception;
  generator_raised_other : ∀ e, is_StopIteration (generator_raised e) = false;
}.

Section Values.
Context `{Env}.

(** Values an attribute read on a response can produce. *)
Inductive Value :=
| VStr (s : string)
| VDocuments (ds : list Document)
| VPartitions (cs : list Cursor)
| VObject (o : Object).

(** A call either returns or raises. *)
Inductive Result (A : Type) :=
| Returns (a : A)
| Raises (e : Exception).
End Values.

Arguments Returns {_ _} a.
Arguments Raises {_ _} e.

(** Truth value of a Python [str]: only the empty string is false. *)
Definition truthy (s : string) : bool :=
  match s with
  | EmptyString => false
  | String _ _ => true
  end.

(** The messages of [google.firestore_v1.types.firestore] that the pagers
    handle, with the fields the pagers read or write. *)
Module firestore.

Module ListDocumentsRequest.
Section Message.
Context `{Env}.
Record t := { page_token : string; fields : ListDocumentsFields }.
(** [request.page_token = tok] *)
Definition set_page_token (tok : string) (request : t) : t :=
  {| page_token := tok; fields := fields request |}.
End Message.
End ListDocumentsRequest.

Module ListDocumentsResponse.
Section Message.
Context `{Env}.
Record t := { documents : list Document; next_page_token : string }.
End Message.
End ListDocumentsResponse.

Module PartitionQueryRequest.
Section Message.
Context `{Env}.
Record t := { page_token : string; fields : PartitionQueryFields }.
(** [request.page_token = tok] *)
Definition set_page_token (tok : string) (request : t) : t :=
  {| page_token := tok; fields := fields request |}.
End Message.
End PartitionQueryRequest.

Module PartitionQueryResponse.
Section Message.
Context `{Env}.
Record t := { partitions : list Cursor; next_page_token : string }.
End Message.
End PartitionQueryResponse.

End firestore.

(** What the message classes and the base class [object] provide beyond
    the fields above. *)
Class MessageApi `{Env} := {
  (** [repr(response)] *)
  ListDocumentsResponse_repr : firestore.ListDocumentsResponse.t → string;
  PartitionQueryResponse_repr : firestore.PartitionQueryResponse.t → string;
  (** [getattr(response, name)] for a [name] that is not one of the two
      fields *)
  ListDocumentsResponse_attr :
    firestore.ListDocumentsResponse.t → string → Result Value;
  PartitionQueryResponse_attr :
    firestore.PartitionQueryResponse.t → string → Result Value;
  (** the names every instance resolves through [object] and the class
      machinery ([__class__], [__dict__], [__eq__], ...) *)
  object_attrs : list string;
}.

Section MessageAttributes.
Context `{MessageApi}.
Import firestore.

(** [getattr(response, name)] on a [ListDocumentsResponse] *)
Definition ListDocumentsResponse_getattr
    (response : ListDocumentsResponse.t) (name : string) : Result Value :=
  if String.eqb name "documents" then
    Returns (VDocuments (ListDocumentsResponse.documents response))
  else if String.eqb name "next_page_token" then
    Returns (VStr (ListDocumentsResponse.next_page_token response))
  else ListDocumentsResponse_attr response name.

(** [getattr(response, name)] on a [PartitionQueryResponse] *)
Definition PartitionQueryResponse_getattr
    (response : PartitionQueryResponse.t) (name : string) : Result Value :=
  if String.eqb name "partitions" then
    Returns (VPartitions (PartitionQueryResponse.partitions response))
  else if String.eqb name "next_page_token" then
    Returns (VStr (PartitionQueryResponse.next_page_token response))
  else PartitionQueryResponse_attr response name.
End MessageAttributes.

(** ** Objects, the store and the fetch callable *)

Section Runtime.
Context `{Env}.

(** References to request objects. *)
Definition loc := nat.

(** The request objects alive ([heap], allocated below [next_loc]), the
    world of the fetch callable, and the log of the requests the fetch
    callable was invoked with, oldest first. *)
Record State (Req : Type) := {
  heap : loc → Req;
  next_loc : loc;
  world : World;
  calls : list Req;
}.

(** [Callable[[Request], Response]]: reads the request, talks to the
    world, returns a response or raises. *)
Definition Method (Req Resp : Type) := Req → World → Result Resp * World.

(** The instance attributes [__init__] sets, the same three in both
    classes.  [_request] is a reference: the request is mutated in place. *)
Record Pager (Req Resp : Type) := {
  _method : Method Req Resp;
  _request : loc;
  _response : Resp;
}.
End Runtime.

Arguments heap {_ _} _ _.
Arguments next_loc {_ _} _.
Arguments world {_ _} _.
Arguments calls {_ _} _.
Arguments Build_State {_ _} _ _ _ _.
Arguments _method {_ _ _} _.
Arguments _request {_ _ _} _.
Arguments _response {_ _ _} _.
Arguments Build_Pager {_ _ _} _ _ _.

Section Attributes.
Context `{Env}.

(** What an attribute read finds on the pager itself. *)
Inductive Member (Req Resp : Type) :=
| MMethod (method : Method Req Resp)
| MRequest (request : loc)
| MResponse (response : Resp)
(** the property [pages]: each read calls the generator function and gets
    a new generator, not started *)
| MPages
(** a function of the class body, bound to the instance *)
| MBound (name : string)
(** resolved through the base class [object] *)
| MObject (name : string).

(** [getattr(pager, name)]: found on the pager, or handed to
    [__getattr__], whose result (value or exception) it then is. *)
Inductive Lookup (Req Resp : Type) :=
| Own (m : Member Req Resp)
| Forwarded (r : Result Value).

(** [name in names] *)
Definition among (name : string) (names : list string) : bool :=
  existsb (String.eqb name) names.
End Attributes.

Arguments MMethod {_ _ _} method.
Arguments MRequest {_ _ _} request.
Arguments MResponse {_ _ _} response.
Arguments MPages {_ _ _}.
Arguments MBound {_ _ _} name.
Arguments MObject {_ _ _} name.
Arguments Own {_ _ _} m.
Arguments Forwarded {_ _ _} r.

Section Store.
Context `{Env} {Req Resp : Type}.

(** A new object holding [v]. *)
Definition alloc (v : Req) (s : State Req) : loc * State Req :=
  (next_loc s,
   {| heap := <[next_loc s := v]> (heap s); next_loc := S (next_loc s);
      world := world s; calls := calls s |}).

(** Modelled from the spec: the message constructor
    [firestore.ListDocumentsRequest(request)] (likewise
    [firestore.PartitionQueryRequest(request)]) belongs to the message
    library, not to [pagers.py]; the spec says construction "copies/owns
    initialRequest", so it allocates a new message with the field values
    of [request]. *)
Definition copy_message (request : loc) (s : State Req) : loc * State Req :=
  alloc (heap s request) s.

(** [obj.field = v] on the object at [l], [upd] being the field update. *)
Definition setattr (l : loc) (upd : Req → Req) (s : State Req) : State Req :=
  {| heap := <[l := upd (heap s l)]> (heap s); next_loc := next_loc s;
     world := world s; calls := calls s |}.

(** [method(request)]: the callable is handed the pager's own request
    object (lines 69 and 124) and sees it as it is now.  A [Method] reads
    the request and does not write to it: the development covers the
    callables that leave the request they are handed as it is. *)
Definition call (method : Method Req Resp) (request : loc) (s : State Req)
  : Result Resp * State Req :=
  let rq := heap s request in
  let '(res, w) := method rq (world s) in
  (res, {| heap := heap s; next_loc := next_loc s; world := w;
           calls := calls s ++ [rq] |}).
End Store.

(** ** Generators

    A generator object is its point of suspension; resuming it runs the body
    up to the next [yield], the end of the body or an exception. *)

Section Generators.
Context `{Env}.

(** What resuming a generator gives its consumer.  [Continue] is a step of
    the body that has not reached a [yield] yet. *)
Inductive Signal (A : Type) :=
| Yield (a : A)
| Continue
| StopIteration
| Raise (e : Exception).

(** The generator of [pages]: not started, suspended at the first [yield],
    suspended at the [yield] of the loop, or finished. *)
Inductive PagesGen := Created | AtFirstYield | AtLoopYield | Closed.

(** The generator of [__iter__]: not started, inside the [for] loop with
    the generator of [self.pages] and the rest of the page being
    delegated to, or finished. *)
Inductive ItemsGen (A : Type) :=
| ICreated
| InFor (pg : PagesGen) (pending : list A)
| IClosed.

(** How an enumeration ended. *)
Inductive Ending := Finished | Raised (e : Exception).

(** What reaches the consumer when [e] is raised inside a generator body
    and not caught there: [e] itself, except that a [StopIteration] is
    replaced by a [RuntimeError] (a generator ends by raising
    [StopIteration], so Python does not let one from the body through). *)
Definition leaving_generator (e : Exception) : Exception :=
  if is_StopIteration e then generator_raised e else e.

(** The ending the consumer of a generator of [pages] sees when the chain
    of fetches ended with [fin]. *)
Definition seen_ending (fin : Ending) : Ending :=
  match fin with
  | Finished => Finished
  | Raised e => Raised (leaving_generator e)
  end.
End Generators.

Arguments Yield {_ _} a.
Arguments Continue {_ _}.
Arguments StopIteration {_ _}.
Arguments Raise {_ _} e.
Arguments ICreated {_}.
Arguments InFor {_} pg pending.
Arguments IClosed {_}.

Section Consumer.
Context `{Env} {Req Resp G A : Type}.

(** One resumption: signal, generator, pager and store afterwards. *)
Definition Step := (Signal A * G * Pager Req Resp * State Req)%type.

(** A yielded value together with the pager and the store at the moment
    the consumer receives it. *)
Record Seen := { value : A; seen_pager : Pager Req Resp; seen_state : State Req }.

(** A whole enumeration. *)
Record Run := {
  yielded : list Seen;
  ending : Ending;
  gen : G;
  pager : Pager Req Resp;
  state : State Req;
}.

Definition seen_first (x : Seen) (r : Run) : Run :=
  {| yielded := x :: yielded r; ending := ending r; gen := gen r;
     pager := pager r; state := state r |}.

(** [for x in g: ...] to the end, as [list(g)] does: resume until the
    generator stops or raises.  [None]: more than [fuel] resumptions. *)
Fixpoint drain (step : G → Pager Req Resp → State Req → Step) (fuel : nat)
    (g : G) (p : Pager Req Resp) (s : State Req) : option Run :=
  match fuel with
  | 0 => None
  | S fuel' =>
    match step g p s with
    | (Yield a, g', p', s') =>
      seen_first {| value := a; seen_pager := p'; seen_state := s' |}
        <$> drain step fuel' g' p' s'
    | (Continue, g', p', s') => drain step fuel' g' p' s'
    | (StopIteration, g', p', s') =>
      Some {| yielded := []; ending := Finished; gen := g'; pager := p'; state := s' |}
    | (Raise e, g', p', s') =>
      Some {| yielded := []; ending := Raised e; gen := g'; pager := p'; state := s' |}
    end
  end.

Definition seen_before (xs : list Seen) (r : Run) : Run :=
  {| yielded := xs ++ yielded r; ending := ending r; gen := gen r;
     pager := pager r; state := state r |}.

(** The values of a run, and the number of fetches made so far when a
    value was received. *)
Definition values (r : Run) : list A := value <$> yielded r.
Definition fetches (x : Seen) : nat := length (calls (seen_state x)).
End Consumer.

Arguments Step {_} Req Resp G A.
Arguments Seen {_} Req Resp A.
Arguments Run {_} Req Resp G A.

Section Flattening.
Context `{Env} {Req Resp A : Type}.

(** A received page seen item by item through the repeated field
    [field]: each item with the pager and the store the page was received
    with. *)
Definition spread (field : Resp → list A) (x : Seen Req Resp Resp)
  : list (Seen Req Resp A) :=
  (λ a, {| value := a; seen_pager := seen_pager x; seen_state := seen_state x |})
    <$> field (value x).
End Flattening.

(** ** Chains of pages

    The fixtures of the specification: what the fetch callable answers, call
    after call, to the requests a pager sends. *)

Section Chains.
Context `{Env} {Req Resp : Type}.
Variable with_token : string → Req → Req.
Variable next_token : Resp → string.
Variable fetch : Method Req Resp.
Variable request : Req.

(** [serves w r rest fin]: starting in world [w] after response [r], the
    responses [rest] follow one another: each response but the last has a
    non-empty next-page-token, and [fetch], applied to [request] with that
    token as page token, returns the next response.  With [fin = Finished]
    the last response has an empty token; with [fin = Raised e] it has a
    non-empty one and the fetch for it raises [e]. *)
Fixpoint serves (w : World) (r : Resp) (rest : list Resp) (fin : Ending) : Prop :=
  match rest with
  | [] =>
    match fin with
    | Finished => next_token r = EmptyString
    | Raised e =>
      next_token r ≠ EmptyString ∧
      (fetch (with_token (next_token r) request) w).1 = Raises e
    end
  | r' :: rest' =>
    next_token r ≠ EmptyString ∧
    (fetch (with_token (next_token r) request) w).1 = Returns r' ∧
    serves (fetch (with_token (next_token r) request) w).2 r' rest' fin
  end.

(** The requests such a chain makes a pager send: one per response whose
    token is followed. *)
Definition asked (r : Resp) (rest : list Resp) (fin : Ending) : list Req :=
  (λ r, with_token (next_token r) request)
    <$> match fin with
        | Finished => removelast (r :: rest)
        | Raised _ => r :: rest
        end.
End Chains.

(** ** class ListDocumentsPager *)

Module ListDocumentsPager.
Import firestore.
Section Class.
Context `{MessageApi}.

Local Abbreviation Request := ListDocumentsRequest.t.
Local Abbreviation Response := ListDocumentsResponse.t.
Local Abbreviation Self := (Pager Request Response).
Local Abbreviation Store := (State Request).

(** [ListDocumentsPager.__name__] *)
Definition __name__ : string := "ListDocumentsPager".

(** The functions of the class body. *)
Definition functions : list string :=
  ["__init__"; "__getattr__"; "__iter__"; "__repr__"].

(** Lines 42-59.  [request] is a reference to the caller's request; the
    message constructor makes the pager's own. *)
Definition __init__ (method : Method Request Response) (request : loc)
    (response : Response) (s : Store) : Self * Store :=
  let '(copy, s') := copy_message request s in
  ({| _method := method; _request := copy; _response := response |}, s').

(** Lines 61-62. *)
Definition __getattr__ (self : Self) (name : string) : Result Value :=
  ListDocumentsResponse_getattr (_response self) name.

(** [getattr(self, name)]: the property of the class, then the instance
    attributes, then the functions of the class and what [object]
    provides; [__getattr__] only when all of these fail. *)
Definition getattr (self : Self) (name : string) : Lookup Request Response :=
  if String.eqb name "pages" then Own MPages
  else if String.eqb name "_method" then Own (MMethod (_method self))
  else if String.eqb name "_request" then Own (MRequest (_request self))
  else if String.eqb name "_response" then Own (MResponse (_response self))
  else if among name functions then Own (MBound name)
  else if among name object_attrs then Own (MObject name)
  else Forwarded (__getattr__ self name).

(** Lines 64-70, one resumption of the generator.  Not started, it
    yields the stored response (line 66).  Suspended at either [yield], it
    goes to the loop test (line 67): on a non-empty token it writes the token
    into the request (line 68), calls the method and stores what it returns
    (line 69; when the call raises, nothing is stored, the exception leaves
    the generator body, a [StopIteration] as [RuntimeError], and finishes
    the generator) and yields the stored response (line 70); on an empty
    token the body ends. *)
Definition pages (g : PagesGen) (self : Self) (s : Store)
  : Step Request Response PagesGen Response :=
  match g with
  | Created => (Yield (_response self), AtFirstYield, self, s)
  | AtFirstYield | AtLoopYield =>
    if truthy (ListDocumentsResponse.next_page_token (_response self)) then
      let s1 :=
        setattr (_request self)
          (ListDocumentsRequest.set_page_token
             (ListDocumentsResponse.next_page_token (_response self))) s in
      match call (_method self) (_request self) s1 with
      | (Returns response, s2) =>
        let self' :=
          {| _method := _method self; _request := _request self;
             _response := response |} in
        (Yield (_response self'), AtLoopYield, self', s2)
      | (Raises e, s2) => (Raise (leaving_generator e), Closed, self, s2)
      end
    else (StopIteration, Closed, self, s)
  | Closed => (StopIteration, Closed, self, s)
  end.

(** Lines 72-74, one step of the generator: it starts by reading
    [self.pages], which makes a new generator (line 73); it yields the next
    pending item of the page it delegates to (line 74); when none is
    pending it resumes the generator of pages for the next page, and ends
    with it.  What the generator of pages raises is never a
    [StopIteration], so it leaves this generator body as it is. *)
Definition __iter__ (g : ItemsGen Document) (self : Self) (s : Store)
  : Step Request Response (ItemsGen Document) Document :=
  match g with
  | ICreated => (Continue, InFor Created [], self, s)
  | InFor pg (x :: pending) => (Yield x, InFor pg pending, self, s)
  | InFor pg [] =>
    match pages pg self s with
    | (Yield page, pg', self', s') =>
      (Continue, InFor pg' (ListDocumentsResponse.documents page), self', s')
    | (Continue, pg', self', s') => (Continue, InFor pg' [], self', s')
    | (StopIteration, _, self', s') => (StopIteration, IClosed, self', s')
    | (Raise e, _, self', s') => (Raise e, IClosed, self', s')
    end
  | IClosed => (StopIteration, IClosed, self, s)
  end.

(** Lines 76-77: ['{0}<{1!r}>'.format(self.__class__.__name__,
    self._response)]. *)
Definition __repr__ (self : Self) : string :=
  __name__ +:+ "<" +:+ ListDocumentsResponse_repr (_response self) +:+ ">".
End Class.
End ListDocumentsPager.

(** ** class PartitionQueryPager *)

Module PartitionQueryPager.
Import firestore.
Section Class.
Context `{MessageApi}.

Local Abbreviation Request := PartitionQueryRequest.t.
Local Abbreviation Response := PartitionQueryResponse.t.
Local Abbreviation Self := (Pager Request Response).
Local Abbreviation Store := (State Request).

(** [PartitionQueryPager.__name__] *)
Definition __name__ : string := "PartitionQueryPager".

(** The functions of the class body. *)
Definition functions : list string :=
  ["__init__"; "__getattr__"; "__iter__"; "__repr__"].

(** Lines 97-114.  [request] is a reference to the caller's request; the
    message constructor makes the pager's own. *)
Definition __init__ (method : Method Request Response) (request : loc)
    (response : Response) (s : Store) : Self * Store :=
  let '(copy, s') := copy_message request s in
  ({| _method := method; _request := copy; _response := response |}, s').

(** Lines 116-117. *)
Definition __getattr__ (self : Self) (name : string) : Result Value :=
  PartitionQueryResponse_getattr (_response self) name.

(** [getattr(self, name)]: the property of the class, then the instance
    attributes, then the functions of the class and what [object]
    provides; [__getattr__] only when all of these fail. *)
Definition getattr (self : Self) (name : string) : Lookup Request Response :=
  if String.eqb name "pages" then Own MPages
  else if String.eqb name "_method" then Own (MMethod (_method self))
  else if String.eqb name "_request" then Own (MRequest (_request self))
  else if String.eqb name "_response" then Own (MResponse (_response self))
  else if among name functions then Own (MBound name)
  else if among name object_attrs then Own (MObject name)
  else Forwarded (__getattr__ self name).

(** Lines 119-125, one resumption of the generator.  Not started, it
    yields the stored response (line 121).  Suspended at either [yield], it
    goes to the loop test (line 122): on a non-empty token it writes the token
    into the request (line 123), calls the method and stores what it returns
    (line 124; when the call raises, nothing is stored, the exception leaves
    the generator body, a [StopIteration] as [RuntimeError], and finishes
    the generator) and yields the stored response (line 125); on an empty
    token the body ends. *)
Definition pages (g : PagesGen) (self : Self) (s : Store)
  : Step Request Response PagesGen Response :=
  match g with
  | Created => (Yield (_response self), AtFirstYield, self, s)
  | AtFirstYield | AtLoopYield =>
    if truthy (PartitionQueryResponse.next_page_token (_response self)) then
      let s1 :=
        setattr (_request self)
          (PartitionQueryRequest.set_page_token
             (PartitionQueryResponse.next_page_token (_response self))) s in
      match call (_method self) (_request self) s1 with
      | (Returns response, s2) =>
        let self' :=
          {| _method := _method self; _request := _request self;
             _response := response |} in
        (Yield (_response self'), AtLoopYield, self', s2)
      | (Raises e, s2) => (Raise (leaving_generator e), Closed, self, s2)
      end
    else (StopIteration, Closed, self, s)
  | Closed => (StopIteration, Closed, self, s)
  end.

(** Lines 127-129, one step of the generator: it starts by reading
    [self.pages], which makes a new generator (line 128); it yields the next
    pending item of the page it delegates to (line 129); when none is
    pending it resumes the generator of pages for the next page, and ends
    with it.  What the generator of pages raises is never a
    [StopIteration], so it leaves this generator body as it is. *)
Definition __iter__ (g : ItemsGen Cursor) (self : Self) (s : Store)
  : Step Request Response (ItemsGen Cursor) Cursor :=
  match g with
  | ICreated => (Continue, InFor Created [], self, s)
  | InFor pg (x :: pending) => (Yield x, InFor pg pending, self, s)
  | InFor pg [] =>
    match pages pg self s with
    | (Yield page, pg', self', s') =>
      (Continue, InFor pg' (PartitionQueryResponse.partitions page), self', s')
    | (Continue, pg', self', s') => (Continue, InFor pg' [], self', s')
    | (StopIteration, _, self', s') => (StopIteration, IClosed, self', s')
    | (Raise e, _, self', s') => (Raise e, IClosed, self', s')
    end
  | IClosed => (StopIteration, IClosed, self, s)
  end.

(** Lines 131-132: ['{0}<{1!r}>'.format(self.__class__.__name__,
    self._response)]. *)
Definition __repr__ (self : Self) : string :=
  __name__ +:+ "<" +:+ PartitionQueryResponse_repr (_response self) +:+ ">".
End Class.
End PartitionQueryPager.

(** ** The paginator of the specification

    The specification (section 4.1) describes one component, PagePuller,
    "a single generic/parametrized type [that] serves both use cases".  It
    is written here from the specification's words, over the message types
    and the item field as parameters, to be compared with the two classes. *)

Module PagePuller.
Section Generic.
Context `{Env}.

(** What a use case fixes: the request and response types, the
    designated repeated field, how the token is written and read, and
    how the paginator and its responses are named and shown. *)
Record Paginated := {
  Request : Type;
  Response : Type;
  Item : Type;
  with_token : string → Request → Request;
  next_token : Response → string;
  item_field : Response → list Item;
  type_name : string;
  operations : list string;
  inherited : list string;
  show : Response → string;
  read : Response → string → Result Value;
}.

Variable P : Paginated.

Local Abbreviation Puller := (Pager (Request P) (Response P)).
Local Abbreviation Store := (State (Request P)).

(** "two states, ACTIVE (more pages possible) and EXHAUSTED
    (next-page-token empty)" *)
Inductive Status := ACTIVE | EXHAUSTED.

Definition status (p : Puller) : Status :=
  if truthy (next_token P (_response p)) then ACTIVE else EXHAUSTED.

(** "stores fetch callable, copies/owns initialRequest, stores
    initialResponse as current.  No I/O performed here" *)
Definition Construct (fetch : Method (Request P) (Response P))
    (initialRequest : loc) (initialResponse : Response P) (s : Store)
  : Puller * Store :=
  let owned := copy_message initialRequest s in
  ({| _method := fetch; _request := owned.1; _response := initialResponse |},
   owned.2).

(** "set the stored Request's token to that value, invoke
    fetch(Request), replace the stored current Response with the result,
    and yield it"; "if fetch raises, that error propagates [...] to the
    caller that was advancing the sequence [and the paginator] does not
    roll back the mutated request token".  The lazy sequence is a
    generator, in both use cases, so the error reaches the caller as an
    error leaves a generator body. *)
Definition advance (p : Puller) (s : Store)
  : Step (Request P) (Response P) PagesGen (Response P) :=
  let token := next_token P (_response p) in
  let fetched := call (_method p) (_request p) (setattr (_request p) (with_token P token) s) in
  match fetched.1 with
  | Returns next =>
    (Yield next, AtLoopYield,
     {| _method := _method p; _request := _request p; _response := next |},
     fetched.2)
  | Raises error => (Raise (leaving_generator error), Closed, p, fetched.2)
  end.

(** "first yields the stored current Response.  Then, while the current
    Response's next-page-token is non-empty: [advance]" *)
Definition Pages (g : PagesGen) (p : Puller) (s : Store)
  : Step (Request P) (Response P) PagesGen (Response P) :=
  match g with
  | Created => (Yield (_response p), AtFirstYield, p, s)
  | Closed => (StopIteration, Closed, p, s)
  | AtFirstYield | AtLoopYield =>
    match status p with
    | ACTIVE => advance p s
    | EXHAUSTED => (StopIteration, Closed, p, s)
    end
  end.

(** "for each Response produced by Pages(), yields every element of its
    designated repeated field, in original order, before advancing to
    the next page" *)
Definition Items (g : ItemsGen (Item P)) (p : Puller) (s : Store)
  : Step (Request P) (Response P) (ItemsGen (Item P)) (Item P) :=
  match g with
  | ICreated => (Continue, InFor Created [], p, s)
  | IClosed => (StopIteration, IClosed, p, s)
  | InFor pg (x :: pending) => (Yield x, InFor pg pending, p, s)
  | InFor pg [] =>
    let '(signal, pg', p', s') := Pages pg p s in
    match signal with
    | Yield page => (Continue, InFor pg' (item_field P page), p', s')
    | Continue => (Continue, InFor pg' [], p', s')
    | StopIteration => (StopIteration, IClosed, p', s')
    | Raise error => (Raise error, IClosed, p', s')
    end
  end.

(** The reads "recognized as a paginator operation": the two views, the
    three things the paginator owns, and what the paginator type
    defines or inherits. *)
Definition recognized (p : Puller) (name : string)
  : option (Member (Request P) (Response P)) :=
  if String.eqb name "pages" then Some MPages
  else if String.eqb name "_method" then Some (MMethod (_method p))
  else if String.eqb name "_request" then Some (MRequest (_request p))
  else if String.eqb name "_response" then Some (MResponse (_response p))
  else if among name (operations P) then Some (MBound name)
  else if among name (inherited P) then Some (MObject name)
  else None.

(** "any attribute read not recognized as a paginator operation is
    forwarded to the current Response" *)
Definition FieldDelegation (p : Puller) (name : string)
  : Lookup (Request P) (Response P) :=
  match recognized p name with
  | Some member => Own member
  | None => Forwarded (read P (_response p) name)
  end.

(** "a debug representation shows the class name and the current
    Response's representation" *)
Definition Display (p : Puller) : string :=
  type_name P +:+ "<" +:+ show P (_response p) +:+ ">".
End Generic.
End PagePuller.

(** ** The two classes as one family

    [c : PagerClass] names a class of [pagers.py]; the definitions below
    select that class's types and that class's code. *)

Inductive PagerClass := ListDocuments | PartitionQuery.

Section Classes.
Context `{MessageApi}.
Import firestore.

Definition Request (c : PagerClass) : Type :=
  match c with
  | ListDocuments => ListDocumentsRequest.t
  | PartitionQuery => PartitionQueryRequest.t
  end.

Definition Response (c : PagerClass) : Type :=
  match c with
  | ListDocuments => ListDocumentsResponse.t
  | PartitionQuery => PartitionQueryResponse.t
  end.

Definition Item (c : PagerClass) : Type :=
  match c with
  | ListDocuments => Document
  | PartitionQuery => Cursor
  end.

(** [request.page_token] *)
Definition page_token (c : PagerClass) : Request c → string :=
  match c with
  | ListDocuments => ListDocumentsRequest.page_token
  | PartitionQuery => PartitionQueryRequest.page_token
  end.

(** the request with [page_token] set to [tok] *)
Definition set_page_token (c : PagerClass) : string → Request c → Request c :=
  match c with
  | ListDocuments => ListDocumentsRequest.set_page_token
  | PartitionQuery => PartitionQueryRequest.set_page_token
  end.

(** [response.next_page_token] *)
Definition next_page_token (c : PagerClass) : Response c → string :=
  match c with
  | ListDocuments => ListDocumentsResponse.next_page_token
  | PartitionQuery => PartitionQueryResponse.next_page_token
  end.

(** the repeated field the class iterates: [documents] or [partitions] *)
Definition items (c : PagerClass) : Response c → list (Item c) :=
  match c with
  | ListDocuments => ListDocumentsResponse.documents
  | PartitionQuery => PartitionQueryResponse.partitions
  end.

(** [getattr(response, name)] *)
Definition response_getattr (c : PagerClass) : Response c → string → Result Value :=
  match c with
  | ListDocuments => ListDocumentsResponse_getattr
  | PartitionQuery => PartitionQueryResponse_getattr
  end.

(** [repr(response)] *)
Definition response_repr (c : PagerClass) : Response c → string :=
  match c with
  | ListDocuments => ListDocumentsResponse_repr
  | PartitionQuery => PartitionQueryResponse_repr
  end.

Definition __name__ (c : PagerClass) : string :=
  match c with
  | ListDocuments => ListDocumentsPager.__name__
  | PartitionQuery => PartitionQueryPager.__name__
  end.

Definition __init__ (c : PagerClass)
  : Method (Request c) (Response c) → loc → Response c → State (Request c) →
    Pager (Request c) (Response c) * State (Request c) :=
  match c with
  | ListDocuments => ListDocumentsPager.__init__
  | PartitionQuery => PartitionQueryPager.__init__
  end.

Definition getattr (c : PagerClass)
  : Pager (Request c) (Response c) → string → Lookup (Request c) (Response c) :=
  match c with
  | ListDocuments => ListDocumentsPager.getattr
  | PartitionQuery => PartitionQueryPager.getattr
  end.

Definition pages (c : PagerClass)
  : PagesGen → Pager (Request c) (Response c) → State (Request c) →
    Step (Request c) (Response c) PagesGen (Response c) :=
  match c with
  | ListDocuments => ListDocumentsPager.pages
  | PartitionQuery => PartitionQueryPager.pages
  end.

Definition __iter__ (c : PagerClass)
  : ItemsGen (Item c) → Pager (Request c) (Response c) → State (Request c) →
    Step (Request c) (Response c) (ItemsGen (Item c)) (Item c) :=
  match c with
  | ListDocuments => ListDocumentsPager.__iter__
  | PartitionQuery => PartitionQueryPager.__iter__
  end.

Definition __repr__ (c : PagerClass) : Pager (Request c) (Response c) → string :=
  match c with
  | ListDocuments => ListDocumentsPager.__repr__
  | PartitionQuery => PartitionQueryPager.__repr__
  end.

(** The names [getattr] resolves on a pager of class [c] itself. *)
Definition own_names (c : PagerClass) : list string :=
  ["pages"; "_method"; "_request"; "_response"]
  ++ match c with
     | ListDocuments => ListDocumentsPager.functions
     | PartitionQuery => PartitionQueryPager.functions
     end
  ++ object_attrs.

(** The use case of the specification's paginator that class [c] is said
    to be. *)
Definition use_case (c : PagerClass) : PagePuller.Paginated :=
  {| PagePuller.Request := Request c;
     PagePuller.Response := Response c;
     PagePuller.Item := Item c;
     PagePuller.with_token := set_page_token c;
     PagePuller.next_token := next_page_token c;
     PagePuller.item_field := items c;
     PagePuller.type_name := __name__ c;
     PagePuller.operations := ["__init__"; "__getattr__"; "__iter__"; "__repr__"];
     PagePuller.inherited := object_attrs;
     PagePuller.show := response_repr c;
     PagePuller.read := response_getattr c |}.
End Classes.

Section Enumerations.
Context `{MessageApi}.

(** The pager and the store a resumption leaves. *)
Definition after {Req Resp G A : Type} (x : Step Req Resp G A)
  : Pager Req Resp * State Req := (x.1.2, x.2).

(** One resumption of some generator of the pager, [pages] or [__iter__],
    whatever its point of suspension. *)
Inductive resumes (c : PagerClass)
  : relation (Pager (Request c) (Response c) * State (Request c)) :=
| resumes_pages g p s : resumes c (p, s) (after (pages c g p s))
| resumes_iter g p s : resumes c (p, s) (after (__iter__ c g p s)).

(** The state EXHAUSTED of the specification. *)
Definition exhausted (c : PagerClass) (p : Pager (Request c) (Response c)) : Prop :=
  next_page_token c (_response p) = EmptyString.

(** What a resumption never touches: the pager's callable and its
    reference to its request, the allocation mark, and every request
    object other than the pager's own. *)
Definition frame {Req Resp : Type} (x y : Pager Req Resp * State Req) : Prop :=
  _method y.1 = _method x.1 ∧ _request y.1 = _request x.1 ∧
  next_loc y.2 = next_loc x.2 ∧
  ∀ l, l ≠ _request x.1 → heap y.2 l = heap x.2 l.
End Enumerations.

(** ** Stores that differ in one request object *)

Section Locality.
Context `{Env} {Req : Type}.

(** [same_but l s1 s2]: the two stores have the same world, log and
    allocation mark, and the same request objects except possibly the one
    at [l]. *)
Definition same_but (l : loc) (s1 s2 : State Req) : Prop :=
  world s2 = world s1 ∧ calls s2 = calls s1 ∧ next_loc s2 = next_loc s1 ∧
  ∀ l', l' ≠ l → heap s2 l' = heap s1 l'.
End Locality.

(** ** The concrete scenario of the specification

    The scenario of section 8 of the specification: the initial response
    has the items a, b and the next token T1; the fetch for T1 returns the
    item c and the empty token.  Documents, cursors and exceptions are
    strings here, and the world counts the calls it served. *)

Module Scenario.
Import firestore.

Definition env : Env :=
  {| Document := string; Cursor := string;
     ListDocumentsFields := string; PartitionQueryFields := string;
     Object := unit; Exception := string; World := nat;
     is_StopIteration := String.eqb "StopIteration";
     generator_raised := λ e, "RuntimeError";
     generator_raised_other := λ e, eq_refl |}.

(** Responses answer every name that is not a field, [pages] included. *)
Definition api : @MessageApi env :=
  {| ListDocumentsResponse_repr := λ r, "ListDocumentsResponse";
     PartitionQueryResponse_repr := λ r, "PartitionQueryResponse";
     ListDocumentsResponse_attr := λ r name, @Returns env _ (VStr name);
     PartitionQueryResponse_attr := λ r name, @Returns env _ (VStr name);
     object_attrs := ["__class__"; "__dict__"; "__doc__"; "__module__"; "__str__"] |}.

Definition page1 : @ListDocumentsResponse.t env :=
  @ListDocumentsResponse.Build_t env ["a"; "b"] "T1".

Definition page2 : @ListDocumentsResponse.t env :=
  @ListDocumentsResponse.Build_t env ["c"] EmptyString.

(** The caller's request, its only request object, at reference 0. *)
Definition request0 : @ListDocumentsRequest.t env :=
  @ListDocumentsRequest.Build_t env EmptyString "parent".

Definition store0 : @State env (@ListDocumentsRequest.t env) :=
  @Build_State env _ (λ _, request0) 1 0 [].

(** The request with the token of [page1]. *)
Definition request_T1 : @ListDocumentsRequest.t env :=
  @ListDocumentsRequest.Build_t env "T1" "parent".

(** fetch("T1") returns [page2]; any other token is not found. *)
Definition fetch : @Method env (@ListDocumentsRequest.t env) (@ListDocumentsResponse.t env) :=
  λ request served,
    if String.eqb (ListDocumentsRequest.page_token request) "T1"
    then (@Returns env _ page2, S served)
    else (@Raises env _ "NotFound", S served).

(** A fetch callable that is down. *)
Definition unavailable
  : @Method env (@ListDocumentsRequest.t env) (@ListDocumentsResponse.t env) :=
  λ request served, (@Raises env _ "Unavailable", S served).

(** The pager over [page1], and the store after its construction. *)
Definition pager1 := (@ListDocumentsPager.__init__ env fetch 0 page1 store0).1.
Definition store1 := (@ListDocumentsPager.__init__ env fetch 0 page1 store0).2.

(** The same pager after its pages were enumerated to the end. *)
Definition pager2 : @Pager env (@ListDocumentsRequest.t env) (@ListDocumentsResponse.t env) :=
  @Build_Pager env _ _ fetch 1 page2.
Definition store2 : @State env (@ListDocumentsRequest.t env) :=
  @Build_State env _ (<[1 := request_T1]> (heap store1)) 2 1 [request_T1].
End Scenario.

(** Further fixtures on the same messages: a server that never runs out of
    pages, a second pager over the caller's request, and a store in which
    the caller has changed its request after the first pager was
    constructed. *)

Module MoreScenarios.
Import firestore Scenario.

(** A fetch callable that answers [page1], with its token T1, every time. *)
Definition looping
  : @Method env (@ListDocumentsRequest.t env) (@ListDocumentsResponse.t env) :=
  λ request served, (@Returns env _ page1, S served).

Definition looper : @Pager env (@ListDocumentsRequest.t env) (@ListDocumentsResponse.t env) :=
  @Build_Pager env _ _ looping 1 page1.

(** A fetch callable that raises [StopIteration]. *)
Definition stopping
  : @Method env (@ListDocumentsRequest.t env) (@ListDocumentsResponse.t env) :=
  λ request served, (@Raises env _ "StopIteration", S served).

(** A second pager over the caller's request, constructed after [pager1]. *)
Definition second := @ListDocumentsPager.__init__ env unavailable 0 page1 store1.

(** [store1] after the caller wrote another token into its own request. *)
Definition store1_changed : @State env (@ListDocumentsRequest.t env) :=
  setattr 0 (ListDocumentsRequest.set_page_token "other") store1.
End MoreScenarios.

(** * Properties *)

(** ** Consuming a generator *)

Section DrainFacts.
Context `{Env} {Req Resp G A : Type}.
Implicit Types step : G → Pager Req Resp → State Req → Step Req Resp G A.

Lemma drain_S step n g p s :
  drain step (S n) g p s =
  match step g p s with
  | (Yield a, g', p', s') =>
    seen_first {| value := a; seen_pager := p'; seen_state := s' |}
      <$> drain step n g' p' s'
  | (Continue, g', p', s') => drain step n g' p' s'
  | (StopIteration, g', p', s') =>
    Some {| yielded := []; ending := Finished; gen := g'; pager := p'; state := s' |}
  | (Raise e, g', p', s') =>
    Some {| yielded := []; ending := Raised e; gen := g'; pager := p'; state := s' |}
  end.
Proof. reflexivity. Qed.

(** More fuel does not change a finished run. *)
Lemma drain_more step n m g p s run :
  drain step n g p s = Some run → n ≤ m → drain step m g p s = Some run.
Proof.
  revert m g p s run.
  induction n as [|n IH]; intros m g p s run Hrun Hle; [discriminate|].
  destruct m as [|m]; [lia|].
  rewrite drain_S in Hrun |- *.
  destruct (step g p s) as [[[[a| | |e] g'] p'] s']; try exact Hrun.
  - destruct (drain step n g' p' s') as [run'|] eqn:Hn; [|discriminate].
    rewrite (IH m g' p' s' run' Hn); [exact Hrun | lia].
  - apply IH; [exact Hrun | lia].
Qed.

(** Two bodies that resume alike enumerate alike. *)
Lemma drain_ext step1 step2 :
  (∀ g p s, step1 g p s = step2 g p s) →
  ∀ n g p s, drain step1 n g p s = drain step2 n g p s.
Proof.
  intros Hstep n.
  induction n as [|n IH]; intros g p s; [reflexivity|].
  rewrite !drain_S, Hstep.
  destruct (step2 g p s) as [[[[a| | |e] g'] p'] s']; rewrite ?IH; reflexivity.
Qed.

(** What holds at every [yield] holds of every value received. *)
Lemma drain_seen step (Q : A → Pager Req Resp → State Req → Prop) :
  (∀ g p s a g' p' s', step g p s = (Yield a, g', p', s') → Q a p' s') →
  ∀ n g p s run, drain step n g p s = Some run →
  Forall (λ x, Q (value x) (seen_pager x) (seen_state x)) (yielded run).
Proof.
  intros Hyield n.
  induction n as [|n IH]; intros g p s run Hrun; [discriminate|].
  rewrite drain_S in Hrun.
  destruct (step g p s) as [[[[a| | |e] g'] p'] s'] eqn:Hstep.
  - destruct (drain step n g' p' s') as [run'|] eqn:Hn; [|discriminate].
    injection Hrun as <-. simpl. constructor.
    + simpl. eapply Hyield, Hstep.
    + eapply IH, Hn.
  - eapply IH, Hrun.
  - injection Hrun as <-. constructor.
  - injection Hrun as <-. constructor.
Qed.
End DrainFacts.

(** ** The paginator of the specification *)

Lemma truthy_true s : truthy s = true ↔ s ≠ EmptyString.
Proof. destruct s; simpl; split; congruence. Qed.

Lemma truthy_false s : truthy s = false ↔ s = EmptyString.
Proof. destruct s; simpl; split; congruence. Qed.

Lemma List_last_cons {A : Type} (a d : A) (l : list A) :
  List.last (a :: l) d = List.last l a.
Proof.
  revert a d. induction l as [|b l IH]; intros a d; [reflexivity|].
  change (List.last (a :: b :: l) d) with (List.last (b :: l) d).
  rewrite (IH b d), (IH b a). reflexivity.
Qed.

Lemma last_nonempty {A : Type} (a : A) (l : list A) (d : A) :
  last (a :: l) = Some (List.last (a :: l) d).
Proof.
  revert a. induction l as [|b l IH]; intros a; [reflexivity|].
  rewrite last_cons_cons, List_last_cons, (IH b), List_last_cons.
  rewrite (List_last_cons b a l). reflexivity.
Qed.

(** ** Pages seen item by item *)

Section SpreadFacts.
Context `{Env} {Req Resp A : Type}.
Variable field : Resp → list A.
Implicit Types xs : list (Seen Req Resp Resp).

Lemma spread_values xs :
  value <$> concat (spread field <$> xs) = concat (field <$> (value <$> xs)).
Proof.
  induction xs as [|x xs IH]; [reflexivity|].
  cbn [fmap list_fmap concat]. rewrite fmap_app, IH. f_equal.
  unfold spread. rewrite <- list_fmap_compose. apply list_fmap_id.
Qed.

Lemma spread_length xs :
  length (concat (spread field <$> xs)) = length (concat (field <$> (value <$> xs))).
Proof. rewrite <- spread_values, length_fmap. reflexivity. Qed.

(** When the pages were received after [b], [b+1], ... fetches, so were
    their items. *)
Lemma spread_timing xs :
  ∀ b, fetches <$> xs = seq b (length xs) →
  (λ x, (value x, fetches x)) <$> concat (spread field <$> xs)
  = concat (imap (λ k r, (λ a, (a, b + k)) <$> field r) (value <$> xs)).
Proof.
  induction xs as [|x xs IH]; intros b Hseq; [reflexivity|].
  cbn [fmap list_fmap length seq] in Hseq. injection Hseq as Hx Hxs.
  cbn [fmap list_fmap concat imap]. rewrite fmap_app. f_equal.
  - unfold spread. rewrite <- list_fmap_compose, Nat.add_0_r, <- Hx. reflexivity.
  - rewrite (IH (S b) Hxs). f_equal. apply imap_ext. intros k r _.
    cbn. rewrite Nat.add_succ_r. reflexivity.
Qed.
End SpreadFacts.

Section ChainFacts.
Context `{Env} {Req Resp : Type}.
Variable with_token : string → Req → Req.
Variable next_token : Resp → string.
Variable fetch : Method Req Resp.
Variable request : Req.

(** The response whose fetch raises has a token to follow. *)
Lemma serves_raised_last rest :
  ∀ w r e, serves with_token next_token fetch request w r rest (Raised e) →
  next_token (List.last rest r) ≠ EmptyString.
Proof.
  induction rest as [|r' rest IH]; intros w r e Hchain.
  - exact (proj1 Hchain).
  - rewrite List_last_cons. destruct Hchain as (_ & _ & Hchain). eapply IH, Hchain.
Qed.

(** ... and it is the token of the last request sent. *)
Lemma asked_raised_last rest :
  ∀ r e d, List.last (asked with_token next_token request r rest (Raised e)) d
  = with_token (next_token (List.last rest r)) request.
Proof.
  induction rest as [|r' rest IH]; intros r e d; [reflexivity|].
  unfold asked in *. cbn [fmap list_fmap]. rewrite !List_last_cons.
  specialize (IH r' e (with_token (next_token r) request)).
  cbn [fmap list_fmap] in IH. rewrite List_last_cons in IH. exact IH.
Qed.

Lemma asked_raised_sent_last rest :
  ∀ r e, last (asked with_token next_token request r rest (Raised e))
  = Some (with_token (next_token (List.last rest r)) request).
Proof.
  induction rest as [|r' rest IH]; intros r e; [reflexivity|].
  specialize (IH r' e). unfold asked in *. cbn [fmap list_fmap] in *.
  rewrite last_cons, IH, List_last_cons. reflexivity.
Qed.
End ChainFacts.

Module PagePullerFacts.
Import PagePuller.

Section Facts.
Context `{Env} (P : Paginated).

(** Writing the token twice is writing the last one. *)
Hypothesis with_token_twice :
  ∀ t t' x, with_token P t (with_token P t' x) = with_token P t x.

Local Abbreviation Puller := (Pager (Request P) (Response P)).
Local Abbreviation Store := (State (Request P)).

Lemma status_active (p : Puller) :
  next_token P (_response p) ≠ EmptyString → status P p = ACTIVE.
Proof. intros Hne. unfold status. apply truthy_true in Hne. rewrite Hne. reflexivity. Qed.

Lemma status_exhausted (p : Puller) :
  next_token P (_response p) = EmptyString → status P p = EXHAUSTED.
Proof. intros He. unfold status. rewrite He. reflexivity. Qed.

(** A page is yielded as the stored response. *)
Lemma Pages_yields_stored g (p : Puller) (s : Store) a g' p' s' :
  Pages P g p s = (Yield a, g', p', s') → _response p' = a.
Proof.
  destruct g; simpl; try (intros [= <- <- <- <-]; reflexivity); try discriminate;
    (destruct (status P p); [|discriminate]); unfold advance;
    destruct (call _ _ _) as [[r|e] s2]; simpl; intros [= <- <- <- <-]; reflexivity.
Qed.

(** EXHAUSTED is terminal: no resumption changes the pager or the store. *)
Lemma Pages_exhausted g (p : Puller) (s : Store) :
  next_token P (_response p) = EmptyString → after (Pages P g p s) = (p, s).
Proof.
  intros He. destruct g; simpl; try reflexivity;
    rewrite (status_exhausted p He); reflexivity.
Qed.

Lemma Items_exhausted g (p : Puller) (s : Store) :
  next_token P (_response p) = EmptyString → after (Items P g p s) = (p, s).
Proof.
  intros He. destruct g as [|pg [|x xs]|]; simpl; try reflexivity.
  pose proof (Pages_exhausted pg p s He) as Hp.
  destruct (Pages P pg p s) as [[[[a| | |e] pg'] p'] s'];
    unfold after in *; simpl in *; exact Hp.
Qed.

(** Resumptions respect [frame]. *)
Lemma Pages_frame g (p : Puller) (s : Store) : frame (p, s) (after (Pages P g p s)).
Proof.
  assert (frame (p, s) (p, s)) as Hrefl by (repeat split).
  destruct g; simpl; try exact Hrefl;
    (destruct (status P p); [|exact Hrefl]); unfold advance, call, after;
    simpl; destruct (_method p _ _) as [[r|e] w]; simpl;
    (repeat split; simpl; intros l Hl; apply fn_lookup_insert_ne; congruence).
Qed.

Lemma Items_frame g (p : Puller) (s : Store) : frame (p, s) (after (Items P g p s)).
Proof.
  assert (frame (p, s) (p, s)) as Hrefl by (repeat split).
  destruct g as [|pg [|x xs]|]; simpl; try exact Hrefl.
  pose proof (Pages_frame pg p s) as Hp.
  destruct (Pages P pg p s) as [[[[a| | |e] pg'] p'] s'];
    unfold after in *; simpl in *; exact Hp.
Qed.

(** The two points of suspension resume at the same loop test. *)
Lemma Pages_suspended n (p : Puller) (s : Store) :
  drain (Pages P) n AtFirstYield p s = drain (Pages P) n AtLoopYield p s.
Proof. destruct n; reflexivity. Qed.

(** The three ways a suspended [Pages] resumes. *)
Lemma Pages_stops (p : Puller) (s : Store) :
  next_token P (_response p) = EmptyString →
  Pages P AtLoopYield p s = (StopIteration, Closed, p, s).
Proof. intros He. simpl. rewrite (status_exhausted p He). reflexivity. Qed.

Lemma Pages_fetches (p : Puller) (s : Store) rq r' w :
  next_token P (_response p) ≠ EmptyString →
  rq = with_token P (next_token P (_response p)) (heap s (_request p)) →
  _method p rq (world s) = (Returns r', w) →
  Pages P AtLoopYield p s =
  (Yield r', AtLoopYield,
   {| _method := _method p; _request := _request p; _response := r' |},
   {| heap := <[_request p := rq]> (heap s); next_loc := next_loc s;
      world := w; calls := calls s ++ [rq] |}).
Proof.
  intros Hne -> Hfetch. simpl. rewrite (status_active p Hne).
  unfold advance, call. simpl. rewrite fn_lookup_insert, Hfetch. reflexivity.
Qed.

Lemma Pages_raises (p : Puller) (s : Store) rq e w :
  next_token P (_response p) ≠ EmptyString →
  rq = with_token P (next_token P (_response p)) (heap s (_request p)) →
  _method p rq (world s) = (Raises e, w) →
  Pages P AtLoopYield p s =
  (Raise (leaving_generator e), Closed, p,
   {| heap := <[_request p := rq]> (heap s); next_loc := next_loc s;
      world := w; calls := calls s ++ [rq] |}).
Proof.
  intros Hne -> Hfetch. simpl. rewrite (status_active p Hne).
  unfold advance, call. simpl. rewrite fn_lookup_insert, Hfetch. reflexivity.
Qed.

(** A resumption changes the pager's request in its token only. *)
Lemma Pages_token_only g (p : Puller) (s : Store) t :
  with_token P t (heap (after (Pages P g p s)).2 (_request p))
  = with_token P t (heap s (_request p)).
Proof.
  destruct g; cbn [Pages]; try reflexivity;
    (destruct (status P p); [|reflexivity]); unfold advance, call, after;
    cbn; destruct (_method p _ _) as [[r|e] w]; cbn;
    rewrite fn_lookup_insert; apply with_token_twice.
Qed.

Lemma Items_token_only g (p : Puller) (s : Store) t :
  with_token P t (heap (after (Items P g p s)).2 (_request p))
  = with_token P t (heap s (_request p)).
Proof.
  destruct g as [|pg [|x xs]|]; cbn [Items]; try reflexivity.
  pose proof (Pages_token_only pg p s t) as Hp.
  destruct (Pages P pg p s) as [[[[a| | |e] pg'] p'] s'];
    unfold after in *; cbn in *; exact Hp.
Qed.

(** A run of [Pages] that ends normally leaves the paginator EXHAUSTED,
    the last page yielded being the stored response. *)
Lemma Pages_finished n :
  ∀ g (p : Puller) (s : Store) run,
    g ≠ Closed →
    drain (Pages P) n g p s = Some run →
    ending run = Finished →
    next_token P (_response (pager run)) = EmptyString ∧
    List.last (values run) (_response p) = _response (pager run).
Proof.
  induction n as [|n IH]; intros g p s run Hg Hrun Hend; [discriminate|].
  rewrite drain_S in Hrun.
  assert (∀ a g' p' s',
            g' ≠ Closed → _response p' = a →
            seen_first {| value := a; seen_pager := p'; seen_state := s' |}
              <$> drain (Pages P) n g' p' s' = Some run →
            next_token P (_response (pager run)) = EmptyString ∧
            List.last (values run) (_response p) = _response (pager run)) as Hyield.
  { intros a g' p' s' Hg' Ha Hrun'.
    destruct (drain (Pages P) n g' p' s') as [run'|] eqn:Hn; [|discriminate].
    injection Hrun' as <-. cbn in Hend.
    destruct (IH g' p' s' run' Hg' Hn Hend) as [He Hl].
    split; [exact He|]. unfold values in *. cbn [seen_first yielded pager fmap list_fmap value].
    rewrite List_last_cons, <- Ha. exact Hl. }
  destruct g; cbn [Pages] in Hrun.
  - eapply Hyield; [| |exact Hrun]; [discriminate | reflexivity].
  - unfold status in Hrun. destruct (truthy _) eqn:Ht.
    + unfold advance in Hrun. destruct (call _ _ _) as [[r|e] s2]; cbn in Hrun.
      * eapply Hyield; [| |exact Hrun]; [discriminate | reflexivity].
      * injection Hrun as <-. discriminate.
    + injection Hrun as <-. apply truthy_false in Ht. split; [exact Ht | reflexivity].
  - unfold status in Hrun. destruct (truthy _) eqn:Ht.
    + unfold advance in Hrun. destruct (call _ _ _) as [[r|e] s2]; cbn in Hrun.
      * eapply Hyield; [| |exact Hrun]; [discriminate | reflexivity].
      * injection Hrun as <-. discriminate.
    + injection Hrun as <-. apply truthy_false in Ht. split; [exact Ht | reflexivity].
  - contradiction.
Qed.

(** On an EXHAUSTED paginator a new [Pages] yields the stored response
    and stops. *)
Lemma Pages_again (p : Puller) (s : Store) :
  next_token P (_response p) = EmptyString →
  drain (Pages P) 2 Created p s =
  Some {| yielded := [{| value := _response p; seen_pager := p; seen_state := s |}];
          ending := Finished; gen := Closed; pager := p; state := s |}.
Proof.
  intros He. rewrite drain_S. cbn [Pages]. rewrite Pages_suspended, drain_S.
  rewrite (Pages_stops p s He). reflexivity.
Qed.

(** A suspended [Pages] with a token to follow sends the stored request,
    the token written into it, whatever the fetch answers. *)
Lemma Pages_sends (p : Puller) (s : Store) :
  next_token P (_response p) ≠ EmptyString →
  calls (after (Pages P AtFirstYield p s)).2
  = calls s ++ [with_token P (next_token P (_response p)) (heap s (_request p))].
Proof.
  intros Hne. cbn [Pages]. rewrite (status_active p Hne). unfold advance, call, after.
  cbn. rewrite fn_lookup_insert. destruct (_method p _ _) as [[r|e] w]; reflexivity.
Qed.

Section Chain.
Variable fin : Ending.
Variable rq : Request P.

Local Abbreviation chain fetch := (serves (with_token P) (next_token P) fetch rq).
Local Abbreviation sent := (asked (with_token P) (next_token P) rq).

Lemma sent_cons r r' rest :
  sent r (r' :: rest) fin = with_token P (next_token P r) rq :: sent r' rest fin.
Proof. unfold asked. destruct fin; reflexivity. Qed.

(** A suspended [Pages] follows a chain to its end. *)
Lemma Pages_resumed rest :
  ∀ r (p : Puller) (s : Store),
    _response p = r →
    (∀ t, with_token P t (heap s (_request p)) = with_token P t rq) →
    chain (_method p) (world s) r rest fin →
    ∃ run,
      drain (Pages P) (S (length rest)) AtLoopYield p s = Some run ∧
      values run = rest ∧
      ending run = seen_ending fin ∧
      gen run = Closed ∧
      calls (state run) = calls s ++ sent r rest fin ∧
      fetches <$> yielded run = seq (S (length (calls s))) (length rest) ∧
      _response (pager run) = List.last rest r ∧
      _request (pager run) = _request p ∧
      heap (state run) (_request p) = List.last (sent r rest fin) (heap s (_request p)).
Proof.
  induction rest as [|r' rest IH]; intros r p s Hr Hcell Hchain.
  - destruct fin as [|e]; cbn [serves] in Hchain.
    + rewrite <- Hr in Hchain. rewrite drain_S, (Pages_stops p s Hchain).
      eexists. split; [reflexivity|]. cbn.
      rewrite Hr, app_nil_r. repeat split; reflexivity.
    + destruct Hchain as [Hne Hraise]. rewrite <- Hr in Hne, Hraise.
      destruct (_method p _ _) as [res w] eqn:Hfetch. cbn in Hraise. subst res.
      rewrite <- Hcell in Hfetch.
      rewrite drain_S, (Pages_raises p s _ e w Hne eq_refl Hfetch).
      eexists. split; [reflexivity|]. cbn.
      rewrite fn_lookup_insert, Hcell, Hr. repeat split; reflexivity.
  - cbn [serves] in Hchain. destruct Hchain as (Hne & Hret & Hchain).
    rewrite <- Hr in Hne, Hret, Hchain.
    destruct (_method p _ _) as [res w] eqn:Hfetch. cbn [fst snd] in Hret, Hchain.
    subst res. rewrite <- Hcell in Hfetch.
    cbn [length]. rewrite drain_S, (Pages_fetches p s _ r' w Hne eq_refl Hfetch).
    rewrite Hcell.
    set (p' := {| _method := _method p; _request := _request p; _response := r' |}).
    set (s' := {| heap := _; next_loc := _; world := w; calls := _ |}).
    destruct (IH r' p' s') as (run & Hrun & Hv & He & Hgen & Hc & Hf & Hl & Hq & Hh).
    + reflexivity.
    + intros t. cbn. rewrite fn_lookup_insert. apply with_token_twice.
    + exact Hchain.
    + rewrite Hrun. eexists. split; [reflexivity|].
      unfold values in *. cbn [fmap option_fmap option_map seen_first yielded ending gen
        pager state list_fmap value].
      change (_request p') with (_request p) in *.
      rewrite Hv, He, Hgen, Hc, Hl, Hq, Hf, Hh.
      rewrite sent_cons, !List_last_cons, <- Hr.
      unfold fetches at 1. subst p' s'. cbn [seen_state calls heap _request].
      rewrite fn_lookup_insert, <- app_assoc, length_app, Nat.add_1_r.
      repeat split; reflexivity.
Qed.

(** A new [Pages] yields the stored response, then follows the chain. *)
Lemma Pages_created rest r (p : Puller) (s : Store) :
  _response p = r →
  (∀ t, with_token P t (heap s (_request p)) = with_token P t rq) →
  chain (_method p) (world s) r rest fin →
  ∃ run,
    drain (Pages P) (S (S (length rest))) Created p s = Some run ∧
    values run = r :: rest ∧
    ending run = seen_ending fin ∧
    gen run = Closed ∧
    calls (state run) = calls s ++ sent r rest fin ∧
    fetches <$> yielded run = seq (length (calls s)) (S (length rest)) ∧
    _response (pager run) = List.last rest r ∧
    _request (pager run) = _request p ∧
    heap (state run) (_request p) = List.last (sent r rest fin) (heap s (_request p)).
Proof.
  intros Hr Hcell Hchain.
  destruct (Pages_resumed rest r p s Hr Hcell Hchain)
    as (run & Hrun & Hv & He & Hgen & Hc & Hf & Hl & Hq & Hh).
  rewrite drain_S. cbn [Pages]. rewrite Pages_suspended, Hrun.
  eexists. split; [reflexivity|].
  unfold values in *. cbn [fmap option_fmap option_map seen_first yielded ending gen
    pager state list_fmap value].
  rewrite Hv, He, Hgen, Hc, Hl, Hq, Hf, Hh, Hr.
  repeat split; reflexivity.
Qed.
End Chain.
(** Inside a page, [Items] hands out the pending elements one by one; the
    pager and the store stay as they are. *)
Lemma Items_pending xs :
  ∀ n pg (p : Puller) (s : Store),
    drain (Items P) (length xs + n) (InFor pg xs) p s =
    seen_before ((λ a, {| value := a; seen_pager := p; seen_state := s |}) <$> xs)
      <$> drain (Items P) n (InFor pg []) p s.
Proof.
  induction xs as [|x xs IH]; intros n pg p s.
  - cbn [length Nat.add]. destruct (drain _ n _ p s) as [[]|]; reflexivity.
  - cbn [length Nat.add]. rewrite drain_S. cbn [Items]. rewrite IH.
    destruct (drain _ n _ p s) as [[]|]; reflexivity.
Qed.

(** [Items] is [Pages] with every page replaced by its elements: same
    ending, same final pager and store, and each element received with the
    pager and the store its page was received with. *)
Lemma Items_of_Pages n :
  ∀ pg (p : Puller) (s : Store) runP,
    drain (Pages P) n pg p s = Some runP →
    drain (Items P) (n + length (concat (spread (item_field P) <$> yielded runP)))
      (InFor pg []) p s =
    Some {| yielded := concat (spread (item_field P) <$> yielded runP);
            ending := ending runP; gen := IClosed;
            pager := pager runP; state := state runP |}.
Proof.
  induction n as [|n IH]; intros pg p s runP Hrun; [discriminate|].
  rewrite drain_S in Hrun. cbn [Nat.add]. rewrite drain_S. cbn [Items].
  destruct (Pages P pg p s) as [[[[a| | |e] pg'] p'] s'].
  - destruct (drain (Pages P) n pg' p' s') as [run'|] eqn:Hn; [|discriminate].
    injection Hrun as <-.
    cbn [seen_first yielded ending pager state fmap list_fmap concat].
    rewrite length_app. unfold spread at 1. rewrite length_fmap. cbn [value].
    replace (n + (length (item_field P a) + length (concat (spread (item_field P) <$> yielded run'))))
      with (length (item_field P a) + (n + length (concat (spread (item_field P) <$> yielded run'))))
      by lia.
    rewrite Items_pending, (IH _ _ _ _ Hn). reflexivity.
  - apply IH, Hrun.
  - injection Hrun as <-. reflexivity.
  - injection Hrun as <-. reflexivity.
Qed.

Lemma Items_created n (p : Puller) (s : Store) :
  drain (Items P) (S n) ICreated p s = drain (Items P) n (InFor Created []) p s.
Proof. reflexivity. Qed.

(** ... and a new [Items] yields the items of the stored response and
    stops. *)
Lemma Items_again (p : Puller) (s : Store) :
  next_token P (_response p) = EmptyString →
  drain (Items P) (length (item_field P (_response p)) + 3) ICreated p s =
  Some {| yielded :=
            (λ a, {| value := a; seen_pager := p; seen_state := s |})
              <$> item_field P (_response p);
          ending := Finished; gen := IClosed; pager := p; state := s |}.
Proof.
  intros He.
  pose proof (Items_of_Pages 2 Created p s _ (Pages_again p s He)) as Hrun.
  cbn [yielded ending pager state fmap list_fmap concat] in Hrun.
  unfold spread in Hrun. cbn [value seen_pager seen_state] in Hrun.
  rewrite app_nil_r, length_fmap in Hrun.
  replace (length (item_field P (_response p)) + 3)
    with (S (2 + length (item_field P (_response p)))) by lia.
  rewrite Items_created. exact Hrun.
Qed.
End Facts.
End PagePullerFacts.

(** ** The two classes are the paginator of the specification *)

Section Refinement.
Context `{MessageApi}.

Lemma set_page_token_twice c t t' (x : Request c) :
  set_page_token c t (set_page_token c t' x) = set_page_token c t x.
Proof. destruct c; reflexivity. Qed.

Lemma page_token_set c t (x : Request c) : page_token c (set_page_token c t x) = t.
Proof. destruct c; reflexivity. Qed.

Lemma init_is_Construct c method request response s :
  __init__ c method request response s
  = PagePuller.Construct (use_case c) method request response s.
Proof. destruct c; reflexivity. Qed.

Lemma pages_is_Pages c g p s :
  pages c g p s = PagePuller.Pages (use_case c) g p s.
Proof.
  destruct c, g; cbn; try reflexivity; unfold PagePuller.status, PagePuller.advance;
    cbn; destruct (truthy _); try reflexivity;
    destruct (call _ _ _) as [[r|e] s2]; reflexivity.
Qed.

Lemma iter_is_Items c g p s :
  __iter__ c g p s = PagePuller.Items (use_case c) g p s.
Proof.
  destruct g as [|pg [|x xs]|]; [destruct c; reflexivity| |destruct c; reflexivity..].
  pose proof (pages_is_Pages c pg p s) as Hp.
  destruct c; cbn in *; rewrite <- Hp;
    match goal with
    | |- context [ListDocumentsPager.pages ?g ?p ?s] =>
      destruct (ListDocumentsPager.pages g p s) as [[[[a| | |e] pg'] p'] s']
    | |- context [PartitionQueryPager.pages ?g ?p ?s] =>
      destruct (PartitionQueryPager.pages g p s) as [[[[a| | |e] pg'] p'] s']
    end; reflexivity.
Qed.

Lemma getattr_is_FieldDelegation c p name :
  getattr c p name = PagePuller.FieldDelegation (use_case c) p name.
Proof.
  destruct c; unfold getattr, ListDocumentsPager.getattr, PartitionQueryPager.getattr,
    PagePuller.FieldDelegation, PagePuller.recognized; cbn -[among String.eqb];
    repeat (destruct (String.eqb name _); [reflexivity|]);
    repeat (destruct (among name _); [reflexivity|]); reflexivity.
Qed.

Lemma repr_is_Display c p : __repr__ c p = PagePuller.Display (use_case c) p.
Proof. destruct c; reflexivity. Qed.
End Refinement.

(** ** The claims of the specification, on the two classes *)

Section Claims.
Context `{MessageApi}.

Lemma drain_pages c n g p s :
  drain (pages c) n g p s = drain (PagePuller.Pages (use_case c)) n g p s.
Proof. apply drain_ext, pages_is_Pages. Qed.

Lemma drain_iter c n g p s :
  drain (__iter__ c) n g p s = drain (PagePuller.Items (use_case c)) n g p s.
Proof. apply drain_ext, iter_is_Items. Qed.

(** What [__init__] builds: a pager over [response] whose request is a new
    object with the content of the caller's. *)
Lemma init_unfold c method request response s :
  __init__ c method request response s =
  ({| _method := method; _request := next_loc s; _response := response |},
   {| heap := <[next_loc s := heap s request]> (heap s); next_loc := S (next_loc s);
      world := world s; calls := calls s |}).
Proof. destruct c; reflexivity. Qed.

(** The pages view of a new pager, on a chain with either ending. *)
Lemma pages_on_chain c method request r1 rest fin s :
  serves (set_page_token c) (next_page_token c) method (heap s request) (world s)
    r1 rest fin →
  ∀ fuel, length rest + 2 ≤ fuel →
  ∃ run,
    drain (pages c) fuel Created
      (__init__ c method request r1 s).1 (__init__ c method request r1 s).2 = Some run ∧
    values run = r1 :: rest ∧
    ending run = seen_ending fin ∧
    gen run = Closed ∧
    calls (state run)
    = calls s ++ asked (set_page_token c) (next_page_token c) (heap s request) r1 rest fin ∧
    fetches <$> yielded run = seq (length (calls s)) (S (length rest)) ∧
    _response (pager run) = List.last rest r1 ∧
    _request (pager run) = next_loc s ∧
    heap (state run) (next_loc s)
    = List.last (asked (set_page_token c) (next_page_token c) (heap s request) r1 rest fin)
        (heap s request).
Proof.
  intros Hchain fuel Hfuel. rewrite init_unfold. cbn [fst snd].
  assert (S (S (length rest)) ≤ fuel) as Hfuel' by lia.
  set (p := {| _method := method; _request := next_loc s; _response := r1 |}).
  set (s0 := {| heap := _; next_loc := _; world := _; calls := _ |}).
  destruct (PagePullerFacts.Pages_created (use_case c) (set_page_token_twice c)
              fin (heap s request) rest r1 p s0)
    as (run & Hrun & Hrest).
  - reflexivity.
  - intros t. subst p s0. cbn. rewrite fn_lookup_insert. reflexivity.
  - exact Hchain.
  - exists run. split.
    + rewrite drain_pages. eapply drain_more; [exact Hrun | exact Hfuel'].
    + subst p s0. cbn in Hrest. rewrite fn_lookup_insert in Hrest. exact Hrest.
Qed.

(** C1: on a chain of N responses (the first [r1], then [rest]) whose
    tokens are non-empty except the last one's, and where the fetch callable
    answers each token with the next response, the pages view of a pager
    constructed over [r1] yields exactly the N responses in order and then
    stops; the fetch callable is invoked exactly N-1 times, the i-th time
    with the pager's request carrying the token of response i.  With
    [rest = []] (N = 1) only [r1] is yielded and the log of calls is
    unchanged. *)
Theorem pages_yields_the_chain c method request r1 rest s :
  serves (set_page_token c) (next_page_token c) method (heap s request) (world s)
    r1 rest Finished →
  ∀ fuel, length rest + 2 ≤ fuel →
  let sent :=
    (λ r, set_page_token c (next_page_token c r) (heap s request))
      <$> removelast (r1 :: rest) in
  ∃ run,
    drain (pages c) fuel Created
      (__init__ c method request r1 s).1 (__init__ c method request r1 s).2 = Some run ∧
    values run = r1 :: rest ∧
    ending run = Finished ∧
    calls (state run) = calls s ++ sent ∧
    length sent = length rest ∧
    page_token c <$> sent = next_page_token c <$> removelast (r1 :: rest) ∧
    (rest = [] → calls (state run) = calls s).
Proof.
  intros Hchain fuel Hfuel sent.
  destruct (pages_on_chain c method request r1 rest Finished s Hchain fuel Hfuel)
    as (run & Hrun & Hv & He & _ & Hc & _).
  exists run. repeat split; try assumption.
  - subst sent. rewrite length_fmap, removelast_firstn_len, length_firstn.
    cbn [length]. lia.
  - subst sent. rewrite <- list_fmap_compose. apply list_fmap_ext.
    intros i r _. cbn. apply page_token_set.
  - intros ->. rewrite Hc. cbn. apply app_nil_r.
Qed.

(** Whatever the fetch callable does: when the pages view ends, so does
    the item view, in the same way, and it is the pages view with every
    page replaced by its items. *)
Lemma iter_of_pages c n p s runP :
  drain (pages c) n Created p s = Some runP →
  ∀ fuel, n + length (concat (items c <$> values runP)) + 1 ≤ fuel →
  drain (__iter__ c) fuel ICreated p s =
  Some {| yielded := concat (spread (items c) <$> yielded runP);
          ending := ending runP; gen := IClosed;
          pager := pager runP; state := state runP |}.
Proof.
  intros HrunP fuel Hfuel. unfold values in Hfuel.
  rewrite <- (spread_length (items c)) in Hfuel.
  rewrite drain_iter. rewrite drain_pages in HrunP.
  apply (drain_more _ (S (n + length (concat (spread (items c) <$> yielded runP)))));
    [|lia].
  exact (PagePullerFacts.Items_of_Pages (use_case c) _ _ _ _ _ HrunP).
Qed.

(** C2: on such a chain, iterating the pager yields the concatenation, in
    order, of the repeated field ([documents] or [partitions]) of the
    responses the pages view yields: the run of [__iter__] is the run of
    [pages] with every page replaced by its items, each item received with
    the pager and the store its page was received with.  So the items of
    page k (counted from 0) are all received when exactly k fetches have
    been made, before page k+1 is fetched. *)
Theorem iter_flattens_pages c method request r1 rest s :
  serves (set_page_token c) (next_page_token c) method (heap s request) (world s)
    r1 rest Finished →
  ∀ fuel, length rest + length (concat (items c <$> r1 :: rest)) + 3 ≤ fuel →
  ∃ runP runI,
    drain (pages c) fuel Created
      (__init__ c method request r1 s).1 (__init__ c method request r1 s).2 = Some runP ∧
    drain (__iter__ c) fuel ICreated
      (__init__ c method request r1 s).1 (__init__ c method request r1 s).2 = Some runI ∧
    values runP = r1 :: rest ∧
    values runI = concat (items c <$> values runP) ∧
    yielded runI = concat (spread (items c) <$> yielded runP) ∧
    (λ x, (value x, fetches x)) <$> yielded runI
    = concat (imap (λ k r, (λ a, (a, length (calls s) + k)) <$> items c r) (r1 :: rest)) ∧
    ending runI = ending runP ∧
    pager runI = pager runP ∧
    state runI = state runP.
Proof.
  intros Hchain fuel Hfuel.
  destruct (pages_on_chain c method request r1 rest Finished s Hchain
              (length rest + 2) (le_n _))
    as (runP & HrunP & Hv & He & _ & _ & Hf & _).
  pose proof (iter_of_pages c _ _ _ runP HrunP fuel) as HrunI.
  rewrite Hv in HrunI. specialize (HrunI ltac:(lia)).
  exists runP. eexists. split; [eapply drain_more; [exact HrunP | lia]|].
  split; [exact HrunI|]. cbn [yielded ending pager state]. repeat split.
  - exact Hv.
  - unfold values. cbn [yielded]. apply spread_values.
  - unfold values in Hv. rewrite <- Hv. apply spread_timing.
    rewrite Hf, <- (length_fmap value (yielded runP)), Hv. reflexivity.
Qed.

(** What leaves a generator body is never a [StopIteration]. *)
Lemma leaving_generator_other e : is_StopIteration (leaving_generator e) = false.
Proof.
  unfold leaving_generator. destruct (is_StopIteration e) eqn:He;
    [apply generator_raised_other|exact He].
Qed.

Lemma leaving_generator_changes e :
  is_StopIteration e = true → leaving_generator e ≠ e.
Proof.
  intros He Heq. pose proof (leaving_generator_other e) as Hother.
  rewrite Heq, He in Hother. discriminate.
Qed.

(** A generator of [pages] never raises a [StopIteration]: that is how it
    ends. *)
Lemma pages_raises_other c g p s e g' p' s' :
  pages c g p s = (Raise e, g', p', s') → is_StopIteration e = false.
Proof.
  destruct c, g; cbn; try discriminate;
    (destruct (truthy _); [|discriminate]);
    (destruct (call _ _ _) as [[r|e0] s2]; [discriminate|]);
    intros [= <- _ _ _]; apply leaving_generator_other.
Qed.

(** C3, amended: when the fetch for the page after page k raises [e] (the
    chain [r1 :: rest] of k pages ends in [Raised e]), the pages view yields
    the k pages and then raises: [e] itself when [e] is not a
    [StopIteration]; when it is one, the [RuntimeError] that Python raises
    for a [StopIteration] leaving a generator body, and not [e].  In both
    cases the failed generator is finished and yields nothing more; the
    stored response is still page k; the stored request keeps the token of
    page k that was written for the failed fetch (no rollback), and it is
    the request the failed fetch was invoked with; a new traversal starts at
    page k again and invokes the fetch callable with that same request.
    Iterating the pager instead yields the items of the k pages and raises
    in the same way. *)
Theorem fetch_error_propagates c method request r1 rest e s :
  serves (set_page_token c) (next_page_token c) method (heap s request) (world s)
    r1 rest (Raised e) →
  ∀ fuel, length rest + 2 ≤ fuel →
  let page_k := List.last rest r1 in
  let again := set_page_token c (next_page_token c page_k) (heap s request) in
  ∃ run,
    drain (pages c) fuel Created
      (__init__ c method request r1 s).1 (__init__ c method request r1 s).2 = Some run ∧
    values run = r1 :: rest ∧
    ending run = Raised (leaving_generator e) ∧
    (is_StopIteration e = false → ending run = Raised e) ∧
    (is_StopIteration e = true →
       ending run = Raised (generator_raised e) ∧ ending run ≠ Raised e) ∧
    pages c (gen run) (pager run) (state run)
    = (StopIteration, Closed, pager run, state run) ∧
    _response (pager run) = page_k ∧
    heap (state run) (_request (pager run)) = again ∧
    page_token c (heap (state run) (_request (pager run))) = next_page_token c page_k ∧
    last (calls (state run)) = Some again ∧
    pages c Created (pager run) (state run)
    = (Yield page_k, AtFirstYield, pager run, state run) ∧
    calls (after (pages c AtFirstYield (pager run) (state run))).2
    = calls (state run) ++ [again] ∧
    ∀ fuel', fuel + length (concat (items c <$> r1 :: rest)) + 1 ≤ fuel' →
    ∃ runI,
      drain (__iter__ c) fuel' ICreated
        (__init__ c method request r1 s).1 (__init__ c method request r1 s).2
      = Some runI ∧
      values runI = concat (items c <$> r1 :: rest) ∧
      ending runI = ending run ∧
      pager runI = pager run ∧
      state runI = state run.
Proof.
  intros Hchain fuel Hfuel. cbv zeta.
  destruct (pages_on_chain c method request r1 rest (Raised e) s Hchain fuel Hfuel)
    as (run & Hrun & Hv & He & Hg & Hc & _ & Hl & Hq & Hh).
  rewrite asked_raised_last in Hh. cbn [seen_ending] in He.
  assert (next_page_token c (_response (pager run)) ≠ EmptyString) as Hne
    by (rewrite Hl; eapply serves_raised_last, Hchain).
  exists run. rewrite Hq, Hg, Hh.
  split; [exact Hrun|]. split; [exact Hv|]. split; [exact He|].
  split; [intros Hother; rewrite He; unfold leaving_generator; rewrite Hother; reflexivity|].
  split.
  { intros Hstop. split.
    - rewrite He. unfold leaving_generator. rewrite Hstop. reflexivity.
    - rewrite He. intros [= Heq]. exact (leaving_generator_changes e Hstop Heq). }
  split; [destruct c; reflexivity|]. split; [exact Hl|]. split; [reflexivity|].
  split; [apply page_token_set|]. split; [|split; [|split]].
  - rewrite Hc, last_app, asked_raised_sent_last. reflexivity.
  - rewrite <- Hl. destruct c; reflexivity.
  - rewrite pages_is_Pages, (PagePullerFacts.Pages_sends (use_case c) _ _ Hne).
    cbn [PagePuller.with_token PagePuller.next_token PagePuller.Request
         PagePuller.Response use_case].
    rewrite Hq, Hh, Hl.
    rewrite set_page_token_twice. reflexivity.
  - intros fuel' Hfuel'.
    pose proof (iter_of_pages c _ _ _ run Hrun fuel') as HrunI.
    rewrite Hv in HrunI. specialize (HrunI Hfuel').
    eexists. split; [exact HrunI|]. cbn [ending pager state]. unfold values at 1.
    cbn [yielded]. rewrite spread_values. fold (values run). rewrite Hv.
    repeat split; reflexivity.
Qed.

(** Every page is yielded as the stored response of that moment. *)
Lemma pages_yields_stored c g p s a g' p' s' :
  pages c g p s = (Yield a, g', p', s') → _response p' = a.
Proof.
  rewrite pages_is_Pages. apply (PagePullerFacts.Pages_yields_stored (use_case c)).
Qed.

Lemma getattr_unknown c p name :
  among name (own_names c) = false →
  getattr c p name = Forwarded (response_getattr c (_response p) name).
Proof.
  unfold own_names, among. rewrite !existsb_app. fold (among name object_attrs).
  destruct c; unfold getattr, ListDocumentsPager.getattr, PartitionQueryPager.getattr,
    among, ListDocumentsPager.functions, PartitionQueryPager.functions;
    cbn [existsb app]; fold (among name object_attrs);
    repeat (destruct (String.eqb name _); [cbn; discriminate|]);
    (destruct (among name object_attrs); [cbn; discriminate|]); reflexivity.
Qed.

(** C4: a name that [getattr] does not resolve on the pager itself is read
    on the stored response, whatever the pager's state; so at every moment
    of an enumeration of pages, when page [x] has just been received, the
    read gives the attribute of that page (the most recent one), not of the
    first. *)
Theorem getattr_forwards_to_stored_response c name :
  among name (own_names c) = false →
  (∀ p, getattr c p name = Forwarded (response_getattr c (_response p) name)) ∧
  (∀ n g p s run,
     drain (pages c) n g p s = Some run →
     Forall (λ x, getattr c (seen_pager x) name
                  = Forwarded (response_getattr c (value x) name))
       (yielded run)).
Proof.
  intros Hname. split.
  - intros p. apply getattr_unknown, Hname.
  - intros n g p s run Hrun.
    apply (drain_seen (pages c)
             (λ a p' _, getattr c p' name = Forwarded (response_getattr c a name)))
      with (n := n) (g := g) (p := p) (s := s); [|exact Hrun].
    intros g0 p0 s0 a g' p' s' Hstep.
    rewrite (getattr_unknown c p' name Hname), (pages_yields_stored _ _ _ _ _ _ _ _ Hstep).
    reflexivity.
Qed.

Lemma resumes_exhausted c x y :
  resumes c x y → exhausted c x.1 → y = x.
Proof.
  intros [g p s|g p s] He; cbn in He.
  - rewrite pages_is_Pages. apply (PagePullerFacts.Pages_exhausted (use_case c)), He.
  - rewrite iter_is_Items. apply (PagePullerFacts.Items_exhausted (use_case c)), He.
Qed.

(** C5: once the stored response has an empty next-page-token, no
    resumption of any generator of the pager, of [pages] or of [__iter__],
    started or not, changes the pager or the store: the log of fetch calls
    stays as it is and the pager stays exhausted. *)
Theorem exhausted_is_terminal c p s p' s' :
  exhausted c p →
  rtc (resumes c) (p, s) (p', s') →
  calls s' = calls s ∧ exhausted c p' ∧ p' = p ∧ s' = s.
Proof.
  intros He Hrtc.
  assert ((p', s') = (p, s)) as [= -> ->]; [|repeat split; assumption].
  remember (p, s) as x eqn:Hx. remember (p', s') as y eqn:Hy.
  assert (exhausted c x.1) as Hex by (subst x; exact He).
  clear Hx Hy He. induction Hrtc as [x|x y z Hstep _ IH]; [reflexivity|].
  pose proof (resumes_exhausted c x y Hstep Hex) as ->. apply IH, Hex.
Qed.

Lemma frame_refl {Req Resp : Type} (x : Pager Req Resp * State Req) : frame x x.
Proof. repeat split. Qed.

Lemma frame_trans {Req Resp : Type} (x y z : Pager Req Resp * State Req) :
  frame x y → frame y z → frame x z.
Proof.
  intros (Hm & Hq & Hn & Hh) (Hm' & Hq' & Hn' & Hh'). repeat split; try congruence.
  intros l Hl. rewrite Hh', Hh; [reflexivity|exact Hl|congruence].
Qed.

Lemma resumes_frame c x y : resumes c x y → frame x y.
Proof.
  intros [g p s|g p s].
  - rewrite pages_is_Pages. apply (PagePullerFacts.Pages_frame (use_case c)).
  - rewrite iter_is_Items. apply (PagePullerFacts.Items_frame (use_case c)).
Qed.

Lemma resumes_token_only c x y t :
  resumes c x y →
  set_page_token c t (heap y.2 (_request x.1)) = set_page_token c t (heap x.2 (_request x.1)).
Proof.
  intros [g p s|g p s].
  - rewrite pages_is_Pages.
    apply (PagePullerFacts.Pages_token_only (use_case c) (set_page_token_twice c)).
  - rewrite iter_is_Items.
    apply (PagePullerFacts.Items_token_only (use_case c) (set_page_token_twice c)).
Qed.

Lemma enumeration_frame c x y :
  rtc (resumes c) x y →
  frame x y ∧
  ∀ t, set_page_token c t (heap y.2 (_request x.1))
       = set_page_token c t (heap x.2 (_request x.1)).
Proof.
  induction 1 as [x|x y z Hstep _ [IHf IHt]]; [split; [apply frame_refl|reflexivity]|].
  pose proof (resumes_frame c x y Hstep) as Hf. split.
  - eapply frame_trans; eassumption.
  - intros t. destruct Hf as (_ & Hq & _). rewrite <- Hq, IHt, Hq.
    apply resumes_token_only, Hstep.
Qed.

(** C6: [__init__] invokes the fetch callable zero times and leaves the
    world alone, stores the initial response and the callable, and stores as
    its request a new object with the content of the caller's request.
    Neither construction nor any resumption of any generator of the pager
    afterwards changes the caller's request object, or any request object
    other than the pager's own copy; and the copy itself only ever differs
    from the caller's request in its page token. *)
Theorem init_copies_request c method request response s :
  request < next_loc s →
  let p := (__init__ c method request response s).1 in
  let s0 := (__init__ c method request response s).2 in
  calls s0 = calls s ∧ world s0 = world s ∧
  _method p = method ∧ _response p = response ∧
  _request p ≠ request ∧ heap s0 (_request p) = heap s request ∧
  (∀ l, l < next_loc s → heap s0 l = heap s l) ∧
  ∀ p' s', rtc (resumes c) (p, s0) (p', s') →
    _request p' = _request p ∧
    heap s' request = heap s request ∧
    (∀ l, l ≠ _request p → heap s' l = heap s0 l) ∧
    (∀ t, set_page_token c t (heap s' (_request p'))
          = set_page_token c t (heap s request)).
Proof.
  intros Hlive. rewrite init_unfold.
  cbn [fst snd _method _request _response calls world heap].
  split; [reflexivity|]. split; [reflexivity|].
  split; [reflexivity|]. split; [reflexivity|].
  split; [unfold loc in *; lia|]. split; [apply fn_lookup_insert|].
  split; [intros l Hl; apply fn_lookup_insert_ne; unfold loc in *; lia|].
  intros p' s' Hrtc.
  apply enumeration_frame in Hrtc as [(_ & Hq & _ & Hh) Ht]. cbn in Hq, Hh, Ht.
  split; [exact Hq|]. split; [|split].
  - rewrite Hh; [apply fn_lookup_insert_ne|]; unfold loc in *; lia.
  - exact Hh.
  - intros t. rewrite Hq, Ht, fn_lookup_insert. reflexivity.
Qed.

(** C7: each of the two classes is the paginator of the specification,
    instantiated at the class's request and response types and repeated
    field ([use_case]): construction, every resumption of the pages view and
    of the item view, hence every enumeration, attribute reads and the debug
    representation coincide. *)
Theorem classes_are_one_paginator c :
  (∀ method request response s,
     __init__ c method request response s
     = PagePuller.Construct (use_case c) method request response s) ∧
  (∀ g p s, pages c g p s = PagePuller.Pages (use_case c) g p s) ∧
  (∀ g p s, __iter__ c g p s = PagePuller.Items (use_case c) g p s) ∧
  (∀ n g p s, drain (pages c) n g p s = drain (PagePuller.Pages (use_case c)) n g p s) ∧
  (∀ n g p s, drain (__iter__ c) n g p s = drain (PagePuller.Items (use_case c)) n g p s) ∧
  (∀ p name, getattr c p name = PagePuller.FieldDelegation (use_case c) p name) ∧
  (∀ p, __repr__ c p = PagePuller.Display (use_case c) p).
Proof.
  repeat split; intros.
  - apply init_is_Construct.
  - apply pages_is_Pages.
  - apply iter_is_Items.
  - apply drain_pages.
  - apply drain_iter.
  - apply getattr_is_FieldDelegation.
  - apply repr_is_Display.
Qed.

(** C8: the debug representation of a pager is its class name followed by
    the representation of the stored response between angle brackets; at
    every moment of an enumeration of pages that response is the page just
    received. *)
Theorem repr_shows_stored_response c :
  __name__ c = match c with
               | ListDocuments => "ListDocumentsPager"
               | PartitionQuery => "PartitionQueryPager"
               end ∧
  (∀ p, __repr__ c p = __name__ c +:+ "<" +:+ response_repr c (_response p) +:+ ">") ∧
  (∀ n g p s run,
     drain (pages c) n g p s = Some run →
     Forall (λ x, __repr__ c (seen_pager x)
                  = __name__ c +:+ "<" +:+ response_repr c (value x) +:+ ">")
       (yielded run)).
Proof.
  assert (∀ p, __repr__ c p = __name__ c +:+ "<" +:+ response_repr c (_response p) +:+ ">")
    as Hrepr by (destruct c; reflexivity).
  split; [destruct c; reflexivity|]. split; [exact Hrepr|].
  intros n g p s run Hrun.
  apply (drain_seen (pages c)
           (λ a p' _, __repr__ c p' = __name__ c +:+ "<" +:+ response_repr c a +:+ ">"))
    with (n := n) (g := g) (p := p) (s := s); [|exact Hrun].
  intros g0 p0 s0 a g' p' s' Hstep.
  rewrite Hrepr, (pages_yields_stored _ _ _ _ _ _ _ _ Hstep). reflexivity.
Qed.

(** C9: every new generator of [pages] first yields the response stored at
    that moment, and every new generator of [__iter__] first takes the items
    of that response, without a fetch.  In particular, once an enumeration
    of pages has ended normally, the last page it yielded is the stored
    response, and a second enumeration of pages yields exactly that one
    page, and an enumeration of items exactly its items, leaving the pager
    and the store, hence the log of fetch calls, as they were. *)
Theorem enumeration_restarts_at_stored_response c p s :
  pages c Created p s = (Yield (_response p), AtFirstYield, p, s) ∧
  __iter__ c ICreated p s = (Continue, InFor Created [], p, s) ∧
  __iter__ c (InFor Created []) p s
  = (Continue, InFor AtFirstYield (items c (_response p)), p, s) ∧
  ∀ n run,
    drain (pages c) n Created p s = Some run →
    ending run = Finished →
    last (values run) = Some (_response (pager run)) ∧
    (∀ fuel, 2 ≤ fuel →
       drain (pages c) fuel Created (pager run) (state run) =
       Some {| yielded := [{| value := _response (pager run);
                              seen_pager := pager run; seen_state := state run |}];
               ending := Finished; gen := Closed;
               pager := pager run; state := state run |}) ∧
    (∀ fuel, length (items c (_response (pager run))) + 3 ≤ fuel →
       drain (__iter__ c) fuel ICreated (pager run) (state run) =
       Some {| yielded :=
                 (λ a, {| value := a; seen_pager := pager run; seen_state := state run |})
                   <$> items c (_response (pager run));
               ending := Finished; gen := IClosed;
               pager := pager run; state := state run |}).
Proof.
  split; [destruct c; reflexivity|]. split; [destruct c; reflexivity|].
  split; [destruct c; reflexivity|].
  intros n run Hrun Hend. rewrite drain_pages in Hrun.
  destruct (PagePullerFacts.Pages_finished (use_case c) n Created p s run)
    as [He Hl]; [discriminate|exact Hrun|exact Hend|].
  split; [|split].
  - destruct n as [|n]; [discriminate|]. rewrite drain_S in Hrun. cbn [PagePuller.Pages] in Hrun.
    destruct (drain _ n _ _ _) as [run'|]; [|discriminate]. injection Hrun as <-.
    unfold values in *. cbn [seen_first yielded pager fmap list_fmap value] in *.
    rewrite (last_nonempty _ _ (_response p)). f_equal. exact Hl.
  - intros fuel Hfuel. rewrite drain_pages.
    eapply drain_more; [exact (PagePullerFacts.Pages_again (use_case c) _ _ He)|exact Hfuel].
  - intros fuel Hfuel. rewrite drain_iter.
    eapply drain_more; [exact (PagePullerFacts.Items_again (use_case c) _ _ He)|exact Hfuel].
Qed.

(** C10: a name the pager defines ([pages], [_method], [_request],
    [_response], the functions of the class body, what [object] provides)
    is resolved on the pager and never handed to [__getattr__], whatever the
    stored response would answer for that name. *)
Theorem own_names_resolve_on_pager c p name :
  among name (own_names c) = true →
  (∃ m, getattr c p name = Own m) ∧
  (∀ r, getattr c p name ≠ Forwarded r) ∧
  getattr c p "pages" = Own MPages ∧
  getattr c p "_method" = Own (MMethod (_method p)) ∧
  getattr c p "_request" = Own (MRequest (_request p)) ∧
  getattr c p "_response" = Own (MResponse (_response p)) ∧
  getattr c p "__iter__" = Own (MBound "__iter__") ∧
  getattr c p "__repr__" = Own (MBound "__repr__").
Proof.
  intros Hname.
  assert (∃ m, getattr c p name = Own m) as [m Hm].
  { revert Hname. unfold own_names, among. rewrite !existsb_app.
    fold (among name object_attrs).
    destruct c; unfold getattr, ListDocumentsPager.getattr, PartitionQueryPager.getattr,
      among, ListDocumentsPager.functions, PartitionQueryPager.functions;
      cbn [existsb app]; fold (among name object_attrs);
      repeat (destruct (String.eqb name _); [intros _; eexists; reflexivity|]);
      (destruct (among name object_attrs); [intros _; eexists; reflexivity|]);
      cbn; discriminate. }
  split; [exists m; exact Hm|]. split; [intros r; rewrite Hm; discriminate|].
  destruct c; repeat split; reflexivity.
Qed.
End Claims.

(** ** More on the paginator of the specification *)

Module PagePullerMore.
Import PagePuller PagePullerFacts.

Section Facts.
Context `{Env} (P : Paginated).

Hypothesis with_token_twice :
  ∀ t t' x, with_token P t (with_token P t' x) = with_token P t x.

Local Abbreviation Puller := (Pager (Request P) (Response P)).
Local Abbreviation Store := (State (Request P)).

(** A resumption of [Pages] makes no call, or exactly one: then the stored
    token is not empty and the request sent is the stored request with that
    token. *)
Lemma Pages_calls g (p : Puller) (s : Store) :
  calls (after (Pages P g p s)).2 = calls s ∨
  next_token P (_response p) ≠ EmptyString ∧
  calls (after (Pages P g p s)).2
  = calls s ++ [with_token P (next_token P (_response p)) (heap s (_request p))].
Proof.
  destruct g; cbn [Pages]; try (left; reflexivity);
    unfold status; (destruct (truthy _) eqn:Ht; [|left; reflexivity]);
    right; (split; [apply truthy_true, Ht|]); unfold advance, call, after;
    cbn; rewrite fn_lookup_insert; destruct (_method p _ _) as [[r|e] w]; reflexivity.
Qed.

Lemma Items_calls g (p : Puller) (s : Store) :
  calls (after (Items P g p s)).2 = calls s ∨
  next_token P (_response p) ≠ EmptyString ∧
  calls (after (Items P g p s)).2
  = calls s ++ [with_token P (next_token P (_response p)) (heap s (_request p))].
Proof.
  destruct g as [|pg [|x xs]|]; cbn [Items]; try (left; reflexivity).
  pose proof (Pages_calls pg p s) as Hp.
  destruct (Pages P pg p s) as [[[[a| | |e] pg'] p'] s'];
    unfold after in *; cbn in *; exact Hp.
Qed.

(** Whatever a suspended [Pages] yields before it ends is a chain that the
    fetch callable served, the enumeration ending as that chain's ending
    leaves the generator, and the calls made are the requests of that
    chain. *)
Lemma Pages_resumed_chain n :
  ∀ (p : Puller) (s : Store) rq run,
    (∀ t, with_token P t (heap s (_request p)) = with_token P t rq) →
    drain (Pages P) n AtLoopYield p s = Some run →
    ∃ fin,
      serves (with_token P) (next_token P) (_method p) rq (world s)
        (_response p) (values run) fin ∧
      ending run = seen_ending fin ∧
      calls (state run)
      = calls s ++ asked (with_token P) (next_token P) rq (_response p) (values run) fin.
Proof.
  induction n as [|n IH]; intros p s rq run Hcell Hrun; [discriminate|].
  rewrite drain_S in Hrun.
  destruct (truthy (next_token P (_response p))) eqn:Ht.
  - apply truthy_true in Ht.
    destruct (_method p (with_token P (next_token P (_response p)) (heap s (_request p)))
                (world s)) as [[r'|e] w] eqn:Hfetch.
    + rewrite (Pages_fetches P p s _ r' w Ht eq_refl Hfetch) in Hrun.
      destruct (drain (Pages P) n _ _ _) as [run'|] eqn:Hn; [|discriminate].
      injection Hrun as <-.
      apply (IH _ _ rq) in Hn as (fin & Hchain & Hend & Hcalls).
      2:{ intros t. cbn. rewrite fn_lookup_insert, with_token_twice. apply Hcell. }
      rewrite Hcell in Hfetch, Hcalls. cbn [_method _response world calls] in Hchain, Hcalls.
      exists fin.
      unfold values in *. cbn [seen_first yielded ending state fmap list_fmap value].
      split; [|split; [exact Hend|]].
      * cbn [serves]. rewrite Hfetch. cbn [fst snd]. repeat split; assumption.
      * rewrite Hcalls, <- app_assoc. f_equal. unfold asked.
        destruct fin; reflexivity.
    + rewrite (Pages_raises P p s _ e w Ht eq_refl Hfetch) in Hrun.
      injection Hrun as <-. rewrite Hcell in Hfetch. exists (Raised e).
      unfold values. cbn.
      rewrite Hfetch, Hcell. repeat split. exact Ht.
  - apply truthy_false in Ht. rewrite (Pages_stops P p s Ht) in Hrun.
    injection Hrun as <-. exists Finished. unfold values. cbn. rewrite app_nil_r.
    repeat split. exact Ht.
Qed.

(** With a fetch callable that always returns a response with a token to
    follow, no enumeration ever ends. *)
Lemma Pages_endless n :
  ∀ g (p : Puller) (s : Store),
    g ≠ Closed →
    (∀ rq w, ∃ r, (_method p rq w).1 = Returns r ∧ next_token P r ≠ EmptyString) →
    next_token P (_response p) ≠ EmptyString →
    drain (Pages P) n g p s = None.
Proof.
  induction n as [|n IH]; intros g p s Hg Hfetch Hne; [reflexivity|].
  assert (drain (Pages P) (S n) AtLoopYield p s = None) as Hloop.
  { destruct (Hfetch (with_token P (next_token P (_response p)) (heap s (_request p)))
                (world s)) as (r & Hr & Hr').
    destruct (_method p _ _) as [res w] eqn:Hcall. cbn in Hr. subst res.
    rewrite drain_S, (Pages_fetches P p s _ r w Hne eq_refl Hcall).
    rewrite IH; [reflexivity|discriminate|exact Hfetch|exact Hr']. }
  destruct g; [|rewrite Pages_suspended; exact Hloop|exact Hloop|contradiction].
  rewrite drain_S. cbn [Pages]. rewrite IH; [reflexivity|discriminate|exact Hfetch|exact Hne].
Qed.

(** When the item view ends, the pages view ends within the same number of
    resumptions, and the item view is the pages view with every page
    replaced by its items, after the items that were pending. *)
Lemma Pages_of_Items n :
  ∀ pg xs (p : Puller) (s : Store) runI,
    drain (Items P) n (InFor pg xs) p s = Some runI →
    ∃ runP,
      drain (Pages P) n pg p s = Some runP ∧
      runI = seen_before
               ((λ a, {| value := a; seen_pager := p; seen_state := s |}) <$> xs)
               {| yielded := concat (spread (item_field P) <$> yielded runP);
                  ending := ending runP; gen := IClosed;
                  pager := pager runP; state := state runP |}.
Proof.
  induction n as [|n IH]; intros pg xs p s runI Hrun; [discriminate|].
  rewrite drain_S in Hrun. destruct xs as [|x xs]; cbn [Items] in Hrun.
  - rewrite drain_S.
    destruct (Pages P pg p s) as [[[[a| | |e] pg'] p'] s'].
    + apply IH in Hrun as (runP & HrunP & ->). rewrite HrunP.
      eexists. split; reflexivity.
    + apply IH in Hrun as (runP & HrunP & ->). exists runP. split; [exact HrunP|].
      reflexivity.
    + injection Hrun as <-. eexists. split; reflexivity.
    + injection Hrun as <-. eexists. split; reflexivity.
  - destruct (drain (Items P) n (InFor pg xs) p s) as [runI'|] eqn:Hn; [|discriminate].
    injection Hrun as <-. apply IH in Hn as (runP & HrunP & ->).
    exists runP. split; [|reflexivity].
    eapply drain_more; [exact HrunP|lia].
Qed.

(** One resumption of [Pages] on a chain: nothing changes, or the stored
    response moves to the next response of the chain with one call. *)
Lemma Pages_chain_step g (p : Puller) (s : Store) rq todo :
  (∀ t, with_token P t (heap s (_request p)) = with_token P t rq) →
  serves (with_token P) (next_token P) (_method p) rq (world s) (_response p) todo Finished →
  after (Pages P g p s) = (p, s) ∨
  ∃ r' todo',
    todo = r' :: todo' ∧
    _response (after (Pages P g p s)).1 = r' ∧
    _method (after (Pages P g p s)).1 = _method p ∧
    _request (after (Pages P g p s)).1 = _request p ∧
    heap (after (Pages P g p s)).2 (_request p)
    = with_token P (next_token P (_response p)) rq ∧
    calls (after (Pages P g p s)).2
    = calls s ++ [with_token P (next_token P (_response p)) rq] ∧
    serves (with_token P) (next_token P) (_method p) rq
      (world (after (Pages P g p s)).2) r' todo' Finished.
Proof.
  intros Hcell Hchain.
  assert (after (Pages P AtLoopYield p s) = (p, s) ∨
          ∃ r' todo',
            todo = r' :: todo' ∧
            _response (after (Pages P AtLoopYield p s)).1 = r' ∧
            _method (after (Pages P AtLoopYield p s)).1 = _method p ∧
            _request (after (Pages P AtLoopYield p s)).1 = _request p ∧
            heap (after (Pages P AtLoopYield p s)).2 (_request p)
            = with_token P (next_token P (_response p)) rq ∧
            calls (after (Pages P AtLoopYield p s)).2
            = calls s ++ [with_token P (next_token P (_response p)) rq] ∧
            serves (with_token P) (next_token P) (_method p) rq
              (world (after (Pages P AtLoopYield p s)).2) r' todo' Finished) as Hloop.
  { destruct todo as [|r' todo']; cbn [serves] in Hchain.
    - left. rewrite (Pages_stops P p s Hchain). reflexivity.
    - right. destruct Hchain as (Hne & Hret & Hchain).
      rewrite <- Hcell in Hret, Hchain.
      destruct (_method p _ _) as [res w] eqn:Hfetch. cbn [fst snd] in Hret, Hchain.
      subst res. rewrite (Pages_fetches P p s _ r' w Hne eq_refl Hfetch).
      exists r', todo'. unfold after. cbn. rewrite fn_lookup_insert, Hcell.
      repeat split. exact Hchain. }
  destruct g; [left; reflexivity|exact Hloop|exact Hloop|left; reflexivity].
Qed.

Lemma Items_chain_step g (p : Puller) (s : Store) rq todo :
  (∀ t, with_token P t (heap s (_request p)) = with_token P t rq) →
  serves (with_token P) (next_token P) (_method p) rq (world s) (_response p) todo Finished →
  after (Items P g p s) = (p, s) ∨
  ∃ r' todo',
    todo = r' :: todo' ∧
    _response (after (Items P g p s)).1 = r' ∧
    _method (after (Items P g p s)).1 = _method p ∧
    _request (after (Items P g p s)).1 = _request p ∧
    heap (after (Items P g p s)).2 (_request p)
    = with_token P (next_token P (_response p)) rq ∧
    calls (after (Items P g p s)).2
    = calls s ++ [with_token P (next_token P (_response p)) rq] ∧
    serves (with_token P) (next_token P) (_method p) rq
      (world (after (Items P g p s)).2) r' todo' Finished.
Proof.
  intros Hcell Hchain.
  destruct g as [|pg [|x xs]|]; cbn [Items]; try (left; reflexivity).
  pose proof (Pages_chain_step pg p s rq todo Hcell Hchain) as Hp.
  destruct (Pages P pg p s) as [[[[a| | |e] pg'] p'] s'];
    unfold after in *; cbn in *; exact Hp.
Qed.

(** A change to a request object other than the paginator's own does not
    reach a resumption. *)
Lemma Pages_local l g (p : Puller) (s1 s2 : Store) :
  l ≠ _request p →
  same_but l s1 s2 →
  (Pages P g p s2).1 = (Pages P g p s1).1 ∧
  same_but l (Pages P g p s1).2 (Pages P g p s2).2.
Proof.
  intros Hl Hsame.
  assert ((Pages P AtLoopYield p s2).1 = (Pages P AtLoopYield p s1).1 ∧
          same_but l (Pages P AtLoopYield p s1).2 (Pages P AtLoopYield p s2).2) as Hloop.
  { destruct Hsame as (Hw & Hc & Hn & Hh). cbn [Pages].
    destruct (status P p); [|repeat split; assumption].
    unfold advance, call. cbn. rewrite !fn_lookup_insert, Hw, (Hh _ (not_eq_sym Hl)).
    destruct (_method p _ _) as [[r|e] w]; cbn;
      (split; [reflexivity|]); unfold same_but; cbn;
      (split; [reflexivity|]); (split; [rewrite Hc; reflexivity|]);
      (split; [exact Hn|]); intros l' Hl'; unfold insert, fn_insert;
      (destruct (decide _); [reflexivity|apply Hh, Hl']). }
  destruct g; [split; [reflexivity|exact Hsame]|exact Hloop|exact Hloop|
               split; [reflexivity|exact Hsame]].
Qed.

Lemma Items_local l g (p : Puller) (s1 s2 : Store) :
  l ≠ _request p →
  same_but l s1 s2 →
  (Items P g p s2).1 = (Items P g p s1).1 ∧
  same_but l (Items P g p s1).2 (Items P g p s2).2.
Proof.
  intros Hl Hsame.
  destruct g as [|pg [|x xs]|]; cbn [Items]; try (split; [reflexivity|exact Hsame]).
  destruct (Pages_local l pg p s1 s2 Hl Hsame) as [Heq Hs].
  destruct (Pages P pg p s1) as [[[sig1 pg1] p1] t1].
  destruct (Pages P pg p s2) as [[[sig2 pg2] p2] t2].
  cbn in Heq, Hs. injection Heq as -> -> ->.
  destruct sig1; split; try reflexivity; exact Hs.
Qed.
End Facts.

Section Simulation.
Context `{Env} {Req Resp G A : Type}.
Variable step : G → Pager Req Resp → State Req → Step Req Resp G A.
Variable l : loc.

(** Bodies that a change at [l] does not reach enumerate alike in stores
    that differ at [l] only, as long as the pager's request is elsewhere. *)
Lemma drain_local :
  (∀ g p s1 s2, l ≠ _request p → same_but l s1 s2 →
     (step g p s2).1 = (step g p s1).1 ∧ same_but l (step g p s1).2 (step g p s2).2) →
  (∀ g p s, _request (step g p s).1.2 = _request p) →
  ∀ n g p s1 s2 run1,
    l ≠ _request p → same_but l s1 s2 →
    drain step n g p s1 = Some run1 →
    ∃ run2,
      drain step n g p s2 = Some run2 ∧
      values run2 = values run1 ∧ ending run2 = ending run1 ∧
      gen run2 = gen run1 ∧ pager run2 = pager run1 ∧
      same_but l (state run1) (state run2).
Proof.
  intros Hlocal Hkeep n.
  induction n as [|n IH]; intros g p s1 s2 run1 Hl Hsame Hrun; [discriminate|].
  rewrite drain_S in Hrun |- *.
  destruct (Hlocal g p s1 s2 Hl Hsame) as [Heq Hs]. pose proof (Hkeep g p s1) as Hq.
  destruct (step g p s1) as [[[sig1 g1] p1] t1].
  destruct (step g p s2) as [[[sig2 g2] p2] t2].
  cbn in Heq, Hs, Hq. injection Heq as -> -> ->. rewrite <- Hq in Hl.
  destruct sig1 as [a| | |e].
  - destruct (drain step n g1 p1 t1) as [run'|] eqn:Hn; [|discriminate].
    injection Hrun as <-.
    destruct (IH _ _ _ _ _ Hl Hs Hn) as (run2 & -> & Hv & He & Hg & Hp & Hst).
    eexists. split; [reflexivity|]. unfold values in *. cbn. rewrite Hv.
    split; [reflexivity|]. repeat (split; [assumption|]). assumption.
  - exact (IH _ _ _ _ _ Hl Hs Hrun).
  - injection Hrun as <-. eexists. split; [reflexivity|].
    repeat (split; [reflexivity|]). exact Hs.
  - injection Hrun as <-. eexists. split; [reflexivity|].
    repeat (split; [reflexivity|]). exact Hs.
Qed.
End Simulation.
End PagePullerMore.

(** ** Further properties of the two classes *)

Section Extras.
Context `{MessageApi}.

Lemma asked_snoc c (rq : Request c) r1 done r' :
  asked (set_page_token c) (next_page_token c) rq r1 (done ++ [r']) Finished
  = asked (set_page_token c) (next_page_token c) rq r1 done Finished
    ++ [set_page_token c (next_page_token c (List.last done r1)) rq].
Proof.
  unfold asked. rewrite (app_comm_cons done [r'] r1), removelast_last.
  rewrite (app_removelast_last r1 (l := r1 :: done)) at 1 by discriminate.
  rewrite fmap_app, List_last_cons. reflexivity.
Qed.

Lemma resumes_chain_step c x y rq todo :
  resumes c x y →
  (∀ t, set_page_token c t (heap x.2 (_request x.1)) = set_page_token c t rq) →
  serves (set_page_token c) (next_page_token c) (_method x.1) rq (world x.2)
    (_response x.1) todo Finished →
  y = x ∨
  ∃ r' todo',
    todo = r' :: todo' ∧ _response y.1 = r' ∧ _method y.1 = _method x.1 ∧
    _request y.1 = _request x.1 ∧
    heap y.2 (_request x.1) = set_page_token c (next_page_token c (_response x.1)) rq ∧
    calls y.2 = calls x.2 ++ [set_page_token c (next_page_token c (_response x.1)) rq] ∧
    serves (set_page_token c) (next_page_token c) (_method x.1) rq (world y.2)
      r' todo' Finished.
Proof.
  intros [g p s|g p s] Hcell Hchain; cbn [fst snd] in *.
  - rewrite pages_is_Pages.
    exact (PagePullerMore.Pages_chain_step (use_case c) g p s rq todo Hcell Hchain).
  - rewrite iter_is_Items.
    exact (PagePullerMore.Items_chain_step (use_case c) g p s rq todo Hcell Hchain).
Qed.

Lemma resumes_calls c x y :
  resumes c x y →
  calls y.2 = calls x.2 ∨
  next_page_token c (_response x.1) ≠ EmptyString ∧
  calls y.2
  = calls x.2 ++ [set_page_token c (next_page_token c (_response x.1))
                    (heap x.2 (_request x.1))].
Proof.
  intros [g p s|g p s]; cbn [fst snd].
  - rewrite pages_is_Pages. exact (PagePullerMore.Pages_calls (use_case c) g p s).
  - rewrite iter_is_Items. exact (PagePullerMore.Items_calls (use_case c) g p s).
Qed.

(** X1: for a fetch callable that leaves the request it is handed as it
    is (the callables of this development), when an enumeration of pages by
    a new generator ends, normally or with an exception, what it yielded is
    the stored response followed by a chain: every page but the last has a
    non-empty token, the fetch callable returned each next page for the
    pager's request carrying that token, and the last page has an empty
    token (normal end) or its fetch raised an exception [e]; the
    enumeration then ended with [e] as it leaves a generator body ([e], or
    [RuntimeError] for a [StopIteration]).  The calls made are exactly the
    requests of that chain. *)
Theorem pages_run_is_a_chain c n p s run :
  drain (pages c) n Created p s = Some run →
  ∃ rest fin,
    values run = _response p :: rest ∧
    serves (set_page_token c) (next_page_token c) (_method p)
      (heap s (_request p)) (world s) (_response p) rest fin ∧
    ending run = seen_ending fin ∧
    calls (state run)
    = calls s ++ asked (set_page_token c) (next_page_token c)
                   (heap s (_request p)) (_response p) rest fin.
Proof.
  intros Hrun. rewrite drain_pages in Hrun. destruct n as [|n]; [discriminate|].
  rewrite drain_S in Hrun. cbn [PagePuller.Pages] in Hrun.
  rewrite PagePullerFacts.Pages_suspended in Hrun.
  destruct (drain (PagePuller.Pages (use_case c)) n AtLoopYield p s) as [run'|] eqn:Hn;
    [|discriminate].
  injection Hrun as <-.
  destruct (PagePullerMore.Pages_resumed_chain (use_case c) (set_page_token_twice c)
              n p s (heap s (_request p)) run' (λ _, eq_refl) Hn)
    as (fin & Hchain & Hend & Hcalls).
  exists (values run'), fin. repeat split; assumption.
Qed.

(** X2: the pagers have no bound on the number of pages.  With a fetch
    callable that always returns a response with a non-empty token, and a
    non-empty token stored, neither the enumeration of pages nor the
    iteration of items ever ends, however many resumptions are allowed. *)
Theorem enumeration_never_ends c p s :
  (∀ rq w, ∃ r, (_method p rq w).1 = Returns r ∧ next_page_token c r ≠ EmptyString) →
  next_page_token c (_response p) ≠ EmptyString →
  ∀ fuel,
    drain (pages c) fuel Created p s = None ∧
    drain (__iter__ c) fuel ICreated p s = None.
Proof.
  intros Hfetch Hne fuel.
  assert (∀ n, drain (pages c) n Created p s = None) as Hpages.
  { intros n. rewrite drain_pages.
    apply (PagePullerMore.Pages_endless (use_case c)); [discriminate|exact Hfetch|exact Hne]. }
  split; [apply Hpages|].
  destruct (drain (__iter__ c) fuel ICreated p s) as [runI|] eqn:Hiter; [|reflexivity].
  rewrite drain_iter in Hiter. destruct fuel as [|fuel]; [discriminate|].
  rewrite PagePullerFacts.Items_created in Hiter.
  apply (PagePullerMore.Pages_of_Items (use_case c)) in Hiter as (runP & HrunP & _).
  rewrite <- drain_pages, Hpages in HrunP. discriminate.
Qed.

Lemma chain_invariant c method (rq : Request c) base r1 rest x y :
  rtc (resumes c) x y →
  (∃ done todo,
     rest = done ++ todo ∧ _method x.1 = method ∧
     (∀ t, set_page_token c t (heap x.2 (_request x.1)) = set_page_token c t rq) ∧
     _response x.1 = List.last done r1 ∧
     calls x.2 = base ++ asked (set_page_token c) (next_page_token c) rq r1 done Finished ∧
     serves (set_page_token c) (next_page_token c) method rq (world x.2)
       (_response x.1) todo Finished) →
  ∃ done todo,
    rest = done ++ todo ∧ _method y.1 = method ∧
    (∀ t, set_page_token c t (heap y.2 (_request y.1)) = set_page_token c t rq) ∧
    _response y.1 = List.last done r1 ∧
    calls y.2 = base ++ asked (set_page_token c) (next_page_token c) rq r1 done Finished ∧
    serves (set_page_token c) (next_page_token c) method rq (world y.2)
      (_response y.1) todo Finished.
Proof.
  induction 1 as [x|x y z Hstep _ IH]; [trivial|].
  intros (done & todo & Hrest & Hm & Hcell & Hr & Hc & Hchain). apply IH.
  rewrite <- Hm in Hchain.
  destruct (resumes_chain_step c x y rq todo Hstep Hcell Hchain)
    as [->|(r' & todo' & -> & Hr' & Hm' & Hq' & Hh' & Hc' & Hchain')].
  - exists done, todo. rewrite Hm in Hchain. repeat split; assumption.
  - exists (done ++ [r']), todo'. rewrite Hm', Hm, Hr', Hq', Hh', Hc', Hc.
    rewrite Hm in Hchain'. rewrite Hr in *.
    split; [rewrite <- app_assoc; exact Hrest|]. split; [reflexivity|].
    split; [intros t; apply set_page_token_twice|].
    split; [symmetry; apply last_last|].
    split; [rewrite asked_snoc, app_assoc; reflexivity|exact Hchain'].
Qed.

(** X3: on a chain with a normal end, whatever generators of the pager are
    resumed and in whatever order (several generators of [pages] and of
    [__iter__] sharing the pager), the stored response only moves forward
    along the chain: at any moment some pages [done] are behind and the
    pages [todo] ahead are still served, and the calls made so far are
    exactly the requests for the pages passed, one each.  So no page is
    fetched twice and at most N-1 calls are ever made. *)
Theorem resumptions_follow_the_chain c method request r1 rest s p' s' :
  serves (set_page_token c) (next_page_token c) method (heap s request) (world s)
    r1 rest Finished →
  rtc (resumes c)
    ((__init__ c method request r1 s).1, (__init__ c method request r1 s).2) (p', s') →
  ∃ done todo,
    rest = done ++ todo ∧
    _response p' = List.last done r1 ∧
    calls s' = calls s ++ asked (set_page_token c) (next_page_token c)
                            (heap s request) r1 done Finished ∧
    length (calls s') = length (calls s) + length done ∧
    serves (set_page_token c) (next_page_token c) method (heap s request) (world s')
      (List.last done r1) todo Finished.
Proof.
  intros Hchain Hrtc.
  destruct (chain_invariant c method (heap s request) (calls s) r1 rest _ _ Hrtc)
    as (done & todo & Hrest & _ & _ & Hr & Hc & Hserves).
  - exists [], rest. rewrite init_unfold. cbn [fst snd _method _request _response heap calls world].
    split; [reflexivity|]. split; [reflexivity|].
    split; [intros t; rewrite fn_lookup_insert; reflexivity|].
    split; [reflexivity|]. split; [symmetry; apply app_nil_r|exact Hchain].
  - cbn [fst snd] in *. exists done, todo. rewrite <- Hr.
    repeat split; try assumption.
    rewrite Hc, length_app. f_equal. unfold asked.
    rewrite length_fmap, removelast_firstn_len, length_firstn. cbn [length]. lia.
Qed.

Lemma requests_invariant c (rq : Request c) base x y :
  rtc (resumes c) x y →
  ((∀ t, set_page_token c t (heap x.2 (_request x.1)) = set_page_token c t rq) ∧
   ∃ new, calls x.2 = base ++ new ∧
          Forall (λ r, ∃ t, t ≠ EmptyString ∧ r = set_page_token c t rq) new) →
  (∀ t, set_page_token c t (heap y.2 (_request y.1)) = set_page_token c t rq) ∧
  ∃ new, calls y.2 = base ++ new ∧
         Forall (λ r, ∃ t, t ≠ EmptyString ∧ r = set_page_token c t rq) new.
Proof.
  induction 1 as [x|x y z Hstep _ IH]; [trivial|].
  intros (Hcell & new & Hc & Hnew). apply IH.
  destruct (resumes_frame c x y Hstep) as (_ & Hq & _). split.
  - intros t. rewrite Hq, (resumes_token_only c x y t Hstep). apply Hcell.
  - destruct (resumes_calls c x y Hstep) as [->|[Hne ->]].
    + exists new. split; assumption.
    + exists (new ++ [set_page_token c (next_page_token c (_response x.1)) rq]).
      rewrite Hc, Hcell, <- app_assoc. split; [reflexivity|].
      apply Forall_app. split; [exact Hnew|]. constructor; [|constructor].
      eexists. split; [exact Hne|reflexivity].
Qed.

(** X4: whatever generators of a pager are resumed after its construction
    and whatever the fetch callable answers, the log of calls only grows,
    and every request sent carries a non-empty page token: the pager never
    asks for the first page again. *)
Theorem requests_carry_a_token c method request response s p' s' :
  rtc (resumes c)
    ((__init__ c method request response s).1,
     (__init__ c method request response s).2) (p', s') →
  ∃ new,
    calls s' = calls s ++ new ∧
    Forall (λ r, page_token c r ≠ EmptyString) new.
Proof.
  intros Hrtc.
  destruct (requests_invariant c (heap s request) (calls s) _ _ Hrtc)
    as (_ & new & Hc & Hnew).
  - rewrite init_unfold. cbn [fst snd _request heap calls]. split.
    + intros t. rewrite fn_lookup_insert. reflexivity.
    + exists []. split; [symmetry; apply app_nil_r|constructor].
  - exists new. split; [exact Hc|].
    eapply Forall_impl; [exact Hnew|].
    intros r (t & Ht & ->). rewrite page_token_set. exact Ht.
Qed.

(** X5: two pagers constructed over the same request object of the caller
    get a request object each, both with the caller's content, and no
    resumption of a generator of one pager changes the request of the
    other. *)
Theorem pagers_own_their_requests c m1 m2 request r1 r2 s :
  let i1 := __init__ c m1 request r1 s in
  let i2 := __init__ c m2 request r2 i1.2 in
  _request i2.1 ≠ _request i1.1 ∧
  heap i2.2 (_request i1.1) = heap s request ∧
  heap i2.2 (_request i2.1) = heap s request ∧
  (∀ p' s', rtc (resumes c) (i1.1, i2.2) (p', s') →
     heap s' (_request i2.1) = heap s request) ∧
  (∀ p' s', rtc (resumes c) (i2.1, i2.2) (p', s') →
     heap s' (_request i1.1) = heap s request).
Proof.
  cbv zeta. rewrite !init_unfold. cbn [fst snd _request heap next_loc].
  assert (<[next_loc s := heap s request]> (heap s) request = heap s request) as Hcopy.
  { unfold insert, fn_insert. destruct (decide _); reflexivity. }
  assert (S (next_loc s) ≠ next_loc s) as Hne by lia.
  split; [exact Hne|].
  split; [rewrite fn_lookup_insert_ne, fn_lookup_insert by exact Hne; reflexivity|].
  split; [rewrite fn_lookup_insert; exact Hcopy|].
  split; intros p' s' Hrtc;
    apply enumeration_frame in Hrtc as [(_ & _ & _ & Hh) _]; cbn in Hh; rewrite Hh.
  - rewrite fn_lookup_insert. exact Hcopy.
  - exact Hne.
  - rewrite fn_lookup_insert_ne, fn_lookup_insert by exact Hne. reflexivity.
  - exact (not_eq_sym Hne).
Qed.

(** X6: whatever the fetch callable does, iterating a pager ends exactly
    when enumerating its pages ends, in the same way (normally or with the
    same exception), with the same pager and store at the end, and what it
    yields is the concatenation of the repeated field of the pages. *)
Theorem iter_ends_as_pages c p s :
  (∀ n runP,
     drain (pages c) n Created p s = Some runP →
     ∃ m runI,
       drain (__iter__ c) m ICreated p s = Some runI ∧
       values runI = concat (items c <$> values runP) ∧
       ending runI = ending runP ∧ pager runI = pager runP ∧ state runI = state runP) ∧
  (∀ m runI,
     drain (__iter__ c) m ICreated p s = Some runI →
     ∃ runP,
       drain (pages c) m Created p s = Some runP ∧
       values runI = concat (items c <$> values runP) ∧
       ending runI = ending runP ∧ pager runI = pager runP ∧ state runI = state runP).
Proof.
  split.
  - intros n runP HrunP. eexists. eexists.
    split; [exact (iter_of_pages c n p s runP HrunP _ (le_n _))|].
    unfold values. cbn [yielded ending pager state].
    rewrite spread_values. repeat split; reflexivity.
  - intros m runI HrunI. rewrite drain_iter in HrunI.
    destruct m as [|m]; [discriminate|].
    rewrite PagePullerFacts.Items_created in HrunI.
    apply (PagePullerMore.Pages_of_Items (use_case c)) in HrunI as (runP & HrunP & ->).
    exists runP. split; [rewrite drain_pages; eapply drain_more; [exact HrunP|lia]|].
    unfold values. cbn [seen_before yielded ending pager state fmap list_fmap app].
    split; [exact (spread_values (items c) (yielded runP))|].
    repeat split; reflexivity.
Qed.

(** X7: what happens to a request object other than the pager's own (the
    caller changing or reusing its request after construction) does not
    reach the pager: in two stores that differ in that object only, an
    enumeration of pages or of items yields the same values, ends the same
    way and makes the same calls. *)
Theorem other_requests_do_not_matter c l p s1 s2 :
  l ≠ _request p →
  same_but l s1 s2 →
  (∀ n g run1,
     drain (pages c) n g p s1 = Some run1 →
     ∃ run2,
       drain (pages c) n g p s2 = Some run2 ∧
       values run2 = values run1 ∧ ending run2 = ending run1 ∧
       pager run2 = pager run1 ∧ calls (state run2) = calls (state run1)) ∧
  (∀ n g run1,
     drain (__iter__ c) n g p s1 = Some run1 →
     ∃ run2,
       drain (__iter__ c) n g p s2 = Some run2 ∧
       values run2 = values run1 ∧ ending run2 = ending run1 ∧
       pager run2 = pager run1 ∧ calls (state run2) = calls (state run1)).
Proof.
  intros Hl Hsame. split; intros n g run1 Hrun.
  - rewrite drain_pages in Hrun.
    destruct (PagePullerMore.drain_local (PagePuller.Pages (use_case c)) l
                (λ g p s1 s2, PagePullerMore.Pages_local (use_case c) l g p s1 s2)
                (λ g p s, proj1 (proj2 (PagePullerFacts.Pages_frame (use_case c) g p s)))
                n g p s1 s2 run1 Hl Hsame Hrun)
      as (run2 & Hrun2 & Hv & He & _ & Hp & _ & Hc & _).
    exists run2. rewrite drain_pages. repeat split; assumption.
  - rewrite drain_iter in Hrun.
    destruct (PagePullerMore.drain_local (PagePuller.Items (use_case c)) l
                (λ g p s1 s2, PagePullerMore.Items_local (use_case c) l g p s1 s2)
                (λ g p s, proj1 (proj2 (PagePullerFacts.Items_frame (use_case c) g p s)))
                n g p s1 s2 run1 Hl Hsame Hrun)
      as (run2 & Hrun2 & Hv & He & _ & Hp & _ & Hc & _).
    exists run2. rewrite drain_iter. repeat split; assumption.
Qed.
End Extras.

(** ** The claims on the concrete scenario *)

Module ScenarioFacts.
Import Scenario.
#[local] Existing Instance env.
#[local] Existing Instance api.

Lemma pages_yields_the_chain_witness :
  ∃ run,
    drain (pages ListDocuments) 3 Created pager1 store1 = Some run ∧
    values run = [page1; page2] ∧
    ending run = Finished ∧
    calls (state run) = [request_T1].
Proof.
  destruct (pages_yields_the_chain ListDocuments fetch 0 page1 [page2] store0)
    with (fuel := 3) as (run & Hrun & Hv & He & Hc & _).
  - cbn. repeat split; discriminate.
  - cbn. lia.
  - exists run. repeat split; assumption.
Defined.

Lemma iter_flattens_pages_witness :
  ∃ runP runI,
    drain (pages ListDocuments) 7 Created pager1 store1 = Some runP ∧
    drain (__iter__ ListDocuments) 7 ICreated pager1 store1 = Some runI ∧
    values runP = [page1; page2] ∧
    values runI = ["a"; "b"; "c"] ∧
    (λ x, (value x, fetches x)) <$> yielded runI = [("a", 0); ("b", 0); ("c", 1)].
Proof.
  destruct (iter_flattens_pages ListDocuments fetch 0 page1 [page2] store0)
    with (fuel := 7) as (runP & runI & HrunP & HrunI & HvP & HvI & _ & Ht & _).
  - cbn. repeat split; discriminate.
  - cbn. lia.
  - exists runP, runI. rewrite HvP in HvI. repeat split; assumption.
Defined.

Lemma fetch_error_propagates_witness :
  ∃ run,
    drain (pages ListDocuments) 2 Created
      (__init__ ListDocuments unavailable 0 page1 store0).1
      (__init__ ListDocuments unavailable 0 page1 store0).2 = Some run ∧
    values run = [page1] ∧
    ending run = Raised "Unavailable" ∧
    _response (pager run) = page1 ∧
    heap (state run) (_request (pager run)) = request_T1 ∧
    last (calls (state run)) = Some request_T1 ∧
    calls (after (pages ListDocuments AtFirstYield (pager run) (state run))).2
    = calls (state run) ++ [request_T1] ∧
    ∃ runI,
      drain (__iter__ ListDocuments) 5 ICreated
        (__init__ ListDocuments unavailable 0 page1 store0).1
        (__init__ ListDocuments unavailable 0 page1 store0).2 = Some runI ∧
      values runI = ["a"; "b"] ∧
      ending runI = Raised "Unavailable".
Proof.
  destruct (fetch_error_propagates ListDocuments unavailable 0 page1 [] "Unavailable" store0)
    with (fuel := 2)
    as (run & Hrun & Hv & _ & He & _ & _ & Hl & Hh & _ & Hc & _ & Hr & Hiter).
  - cbn. repeat split; discriminate.
  - cbn. lia.
  - specialize (He eq_refl).
    destruct (Hiter 5) as (runI & HrunI & HvI & HeI & _); [cbn; lia|].
    exists run. repeat split; try assumption.
    exists runI. rewrite HeI. repeat split; assumption.
Defined.

(** The claim as stated fails on a fetch callable that raises
    [StopIteration]: the chain ends with that exception, and the
    enumeration ends with [RuntimeError], not with it. *)
Lemma fetch_error_propagates_counterexample :
  serves (set_page_token ListDocuments) (next_page_token ListDocuments)
    MoreScenarios.stopping (heap store0 0) (world store0) page1 [] (Raised "StopIteration") ∧
  ∃ run,
    drain (pages ListDocuments) 2 Created
      (__init__ ListDocuments MoreScenarios.stopping 0 page1 store0).1
      (__init__ ListDocuments MoreScenarios.stopping 0 page1 store0).2 = Some run ∧
    ending run = Raised "RuntimeError" ∧
    ending run ≠ Raised "StopIteration".
Proof.
  split; [cbn; split; [discriminate|reflexivity]|].
  eexists. split; [reflexivity|]. split; [reflexivity|discriminate].
Qed.

Lemma getattr_forwards_to_stored_response_witness :
  getattr ListDocuments pager1 "next_page_token" = Forwarded (Returns (VStr "T1")) ∧
  getattr ListDocuments pager2 "next_page_token" = Forwarded (Returns (VStr EmptyString)) ∧
  ∃ run,
    drain (pages ListDocuments) 3 Created pager1 store1 = Some run ∧
    Forall (λ x, getattr ListDocuments (seen_pager x) "next_page_token"
                 = Forwarded (response_getattr ListDocuments (value x) "next_page_token"))
      (yielded run).
Proof.
  destruct (getattr_forwards_to_stored_response ListDocuments "next_page_token")
    as [Hread Hrun]; [reflexivity|].
  split; [apply Hread|]. split; [apply Hread|].
  eexists. split; [reflexivity|].
  apply (Hrun 3 Created pager1 store1). reflexivity.
Defined.

Lemma exhausted_is_terminal_witness :
  calls (after (__iter__ ListDocuments (InFor AtLoopYield []) pager2 store2)).2
  = calls store2 ∧
  (after (__iter__ ListDocuments (InFor AtLoopYield []) pager2 store2)).1 = pager2.
Proof.
  destruct (exhausted_is_terminal ListDocuments pager2 store2
              (after (__iter__ ListDocuments (InFor AtLoopYield []) pager2 store2)).1
              (after (__iter__ ListDocuments (InFor AtLoopYield []) pager2 store2)).2)
    as (Hc & _ & Hp & _).
  - reflexivity.
  - apply rtc_once. exact (resumes_iter ListDocuments (InFor AtLoopYield []) pager2 store2).
  - split; assumption.
Defined.

Lemma init_copies_request_witness :
  calls store1 = [] ∧ _request pager1 = 1 ∧ heap store1 1 = request0 ∧
  heap (after (pages ListDocuments AtFirstYield pager1 store1)).2 0 = request0 ∧
  heap (after (pages ListDocuments AtFirstYield pager1 store1)).2 1 = request_T1.
Proof.
  destruct (init_copies_request ListDocuments fetch 0 page1 store0)
    as (Hc & _ & _ & _ & _ & Hcopy & _ & Hlater).
  - cbn. lia.
  - destruct (Hlater (after (pages ListDocuments AtFirstYield pager1 store1)).1
                (after (pages ListDocuments AtFirstYield pager1 store1)).2)
      as (_ & Hsame & _).
    + apply rtc_once. exact (resumes_pages ListDocuments AtFirstYield _ _).
    + split; [exact Hc|]. split; [reflexivity|]. split; [exact Hcopy|].
      split; [exact Hsame|reflexivity].
Defined.

Lemma repr_shows_stored_response_witness :
  __repr__ ListDocuments pager2 = "ListDocumentsPager<ListDocumentsResponse>" ∧
  ∃ run,
    drain (pages ListDocuments) 3 Created pager1 store1 = Some run ∧
    Forall (λ x, __repr__ ListDocuments (seen_pager x)
                 = __name__ ListDocuments +:+ "<"
                   +:+ response_repr ListDocuments (value x) +:+ ">")
      (yielded run).
Proof.
  destruct (repr_shows_stored_response ListDocuments) as (_ & Hrepr & Hrun).
  split; [apply Hrepr|].
  eexists. split; [reflexivity|].
  apply (Hrun 3 Created pager1 store1). reflexivity.
Defined.

Lemma enumeration_restarts_at_stored_response_witness :
  ∃ run,
    drain (pages ListDocuments) 3 Created pager1 store1 = Some run ∧
    last (values run) = Some page2 ∧
    values <$> drain (pages ListDocuments) 2 Created (pager run) (state run)
    = Some [page2] ∧
    values <$> drain (__iter__ ListDocuments) 4 ICreated (pager run) (state run)
    = Some ["c"] ∧
    state <$> drain (__iter__ ListDocuments) 4 ICreated (pager run) (state run)
    = Some (state run).
Proof.
  eexists. split; [reflexivity|].
  destruct (enumeration_restarts_at_stored_response ListDocuments pager1 store1)
    as (_ & _ & _ & Hsecond).
  destruct (Hsecond 3 _ eq_refl eq_refl) as (Hlast & Hpages & Hiter).
  split; [exact Hlast|].
  rewrite (Hpages 2 (le_n 2)), (Hiter 4 (le_n 4)). repeat split; reflexivity.
Defined.

Lemma own_names_resolve_on_pager_witness :
  response_getattr ListDocuments (_response pager1) "pages" = Returns (VStr "pages") ∧
  getattr ListDocuments pager1 "pages" = Own MPages ∧
  ∀ r, getattr ListDocuments pager1 "pages" ≠ Forwarded r.
Proof.
  destruct (own_names_resolve_on_pager ListDocuments pager1 "pages")
    as (_ & Hnever & Hpages & _); [reflexivity|].
  split; [reflexivity|]. split; [exact Hpages | exact Hnever].
Defined.
End ScenarioFacts.

(** ** The further properties on the concrete scenario *)

Module MoreScenarioFacts.
Import Scenario MoreScenarios.
#[local] Existing Instance env.
#[local] Existing Instance api.

Lemma pages_run_is_a_chain_witness :
  ∃ run rest fin,
    drain (pages ListDocuments) 3 Created pager1 store1 = Some run ∧
    values run = page1 :: rest ∧
    serves (set_page_token ListDocuments) (next_page_token ListDocuments) fetch
      request0 0 page1 rest fin ∧
    ending run = seen_ending fin ∧
    calls (state run)
    = asked (set_page_token ListDocuments) (next_page_token ListDocuments)
        request0 page1 rest fin.
Proof.
  eexists.
  destruct (pages_run_is_a_chain ListDocuments 3 pager1 store1 _ eq_refl)
    as (rest & fin & Hv & Hchain & Hend & Hcalls).
  exists rest, fin. split; [reflexivity|]. split; [exact Hv|]. split; [exact Hchain|].
  split; [exact Hend|exact Hcalls].
Defined.

Lemma enumeration_never_ends_witness :
  drain (pages ListDocuments) 50 Created looper store1 = None ∧
  drain (__iter__ ListDocuments) 50 ICreated looper store1 = None.
Proof.
  apply (enumeration_never_ends ListDocuments looper store1).
  - intros rq w. exists page1. split; [reflexivity|discriminate].
  - discriminate.
Defined.

Lemma resumptions_follow_the_chain_witness :
  ∃ done todo,
    [page2] = done ++ todo ∧
    _response (after (__iter__ ListDocuments (InFor AtFirstYield []) pager1 store1)).1
    = List.last done page1 ∧
    length (calls (after (__iter__ ListDocuments (InFor AtFirstYield []) pager1 store1)).2)
    = length done.
Proof.
  destruct (resumptions_follow_the_chain ListDocuments fetch 0 page1 [page2] store0
              (after (__iter__ ListDocuments (InFor AtFirstYield []) pager1 store1)).1
              (after (__iter__ ListDocuments (InFor AtFirstYield []) pager1 store1)).2)
    as (done & todo & Hrest & Hr & _ & Hlen & _).
  - cbn. repeat split; discriminate.
  - apply rtc_once.
    exact (resumes_iter ListDocuments (InFor AtFirstYield []) pager1 store1).
  - exists done, todo. repeat split; assumption.
Defined.

Lemma requests_carry_a_token_witness :
  ∃ new,
    calls (after (pages ListDocuments AtFirstYield pager1 store1)).2 = new ∧
    Forall (λ r, page_token ListDocuments r ≠ EmptyString) new.
Proof.
  destruct (requests_carry_a_token ListDocuments fetch 0 page1 store0
              (after (pages ListDocuments AtFirstYield pager1 store1)).1
              (after (pages ListDocuments AtFirstYield pager1 store1)).2)
    as (new & Hc & Hnew).
  - apply rtc_once. exact (resumes_pages ListDocuments AtFirstYield pager1 store1).
  - exists new. split; assumption.
Defined.

Lemma pagers_own_their_requests_witness :
  _request second.1 = 2 ∧ _request pager1 = 1 ∧
  heap second.2 2 = request0 ∧
  heap (after (pages ListDocuments AtFirstYield pager1 second.2)).2 1 = request_T1 ∧
  heap (after (pages ListDocuments AtFirstYield pager1 second.2)).2 2 = request0.
Proof.
  destruct (pagers_own_their_requests ListDocuments fetch unavailable 0 page1 page1 store0)
    as (_ & _ & Hcopy & Hother & _).
  split; [reflexivity|]. split; [reflexivity|]. split; [exact Hcopy|].
  split; [reflexivity|].
  apply (Hother (after (pages ListDocuments AtFirstYield pager1 second.2)).1).
  apply rtc_once. exact (resumes_pages ListDocuments AtFirstYield pager1 second.2).
Defined.

Lemma iter_ends_as_pages_witness :
  (∃ m runI,
     drain (__iter__ ListDocuments) m ICreated pager1 store1 = Some runI ∧
     values runI = ["a"; "b"; "c"] ∧ ending runI = Finished) ∧
  (∃ runP,
     drain (pages ListDocuments) 7 Created pager1 store1 = Some runP ∧
     concat (items ListDocuments <$> values runP) = ["a"; "b"; "c"]).
Proof.
  destruct (iter_ends_as_pages ListDocuments pager1 store1) as [Hforth Hback]. split.
  - destruct (Hforth 3 _ eq_refl) as (m & runI & HrunI & Hv & He & _).
    exists m, runI. split; [exact HrunI|]. split; [exact Hv|exact He].
  - destruct (Hback 7 _ eq_refl) as (runP & HrunP & Hv & _).
    exists runP. split; [exact HrunP|]. symmetry. exact Hv.
Defined.

Lemma other_requests_do_not_matter_witness :
  heap store1_changed 0 ≠ heap store1 0 ∧
  ∃ run2,
    drain (__iter__ ListDocuments) 7 ICreated pager1 store1_changed = Some run2 ∧
    values run2 = ["a"; "b"; "c"] ∧ ending run2 = Finished ∧
    calls (state run2) = [request_T1].
Proof.
  split; [discriminate|].
  destruct (other_requests_do_not_matter ListDocuments 0 pager1 store1 store1_changed)
    as [_ Hiter].
  - discriminate.
  - repeat split. intros l' Hl'. cbn. apply fn_lookup_insert_ne. congruence.
  - destruct (Hiter 7 ICreated _ eq_refl) as (run2 & Hrun2 & Hv & He & _ & Hc).
    exists run2. repeat split; assumption.
Defined.
End MoreScenarioFacts.
